(** * GuruTvapay Node.js SDK: a shallow embedding of [gurutvapay-node-sdk.js]

    The class [GuruTvapayClient] is embedded method by method.  The client
    object ([this]) lives in an explicit world state together with the log
    of the timer and transport operations the methods perform; thrown
    exceptions are the [Throw] results of a small state-and-exception monad.

    Conventions of the model:
    - platform services the SDK calls but does not implement ([fetch],
      [JSON.parse], [JSON.stringify], [URLSearchParams]) are variables of
      the section; [parseInt], the hex codec of [Buffer] and HMAC-SHA256
      are given by their algorithms;
    - the numbers the dispatcher computes with ([backoffFactor], the waits
      it hands to [setTimeout]) are IEEE 754 doubles ([float]); instants and
      the numbers of decoded JSON are rationals ([Q]), counters are [nat];
    - a string is a sequence of code units 0 to 255, which is what header
      values are;
    - a response carries its status, its [Retry-After] header and its body
      text: reading the body of a received response does not fail;
    - [Date.now()] is an argument ([now], in milliseconds) of the methods
      that read the clock. *)

From Stdlib Require Import ZArith QArith Qround Lqa String Ascii List Lia Bool.
From Stdlib Require Import Floats.
From Stdlib Require Import DecimalString.
From stdpp Require Import gmap strings.
From Equations Require Import Equations.
Import ListNotations.
Open Scope string_scope.

(** ** JS values *)

#[warnings="-register-all"]
Inductive json : Type :=
| JNull
| JBool (b : bool)
| JNum (q : Q)
| JStr (s : string)
| JArr (items : list json)
| JObj (props : list (string * json)).

(** ToBoolean on the values the SDK tests with [if (x)], [!x], [x || y]. *)
Definition truthy_str (s : option string) : bool :=
  match s with
  | Some s => negb (String.eqb s "")
  | None => false
  end.

Definition truthy (v : json) : bool :=
  match v with
  | JNull => false
  | JBool b => b
  | JNum q => negb (Qeq_bool q 0)
  | JStr s => negb (String.eqb s "")
  | JArr _ | JObj _ => true
  end.

(** [String(n)] for an integer [n] below 10^21 in absolute value, where JS
    prints every digit (beyond that it switches to the exponent form).  It
    is applied to status codes and to the [limit] and [page] of the list
    call. *)
Definition Number_toString (n : Z) : string :=
  NilZero.string_of_int (Z.to_int n).

(** ** [parseInt(s, 10)]

    Leading white space (tab, line feed, vertical tab, form feed, carriage
    return, space, no-break space) is skipped, an optional sign is read,
    then the longest run of decimal digits.  [parseInt] here gives the
    integer read, [None] for NaN; the JS result is the double nearest to
    it, [Number_of_integer]. *)
Definition is_space (c : ascii) : bool :=
  let n := nat_of_ascii c in
  ((9 <=? n)%nat && (n <=? 13)%nat) || (n =? 32)%nat || (n =? 160)%nat.

Definition digit_of (c : ascii) : option Z :=
  let n := nat_of_ascii c in
  if ((48 <=? n)%nat && (n <=? 57)%nat) then Some (Z.of_nat (n - 48)) else None.

Fixpoint skip_spaces (s : string) : string :=
  match s with
  | String c rest => if is_space c then skip_spaces rest else s
  | EmptyString => s
  end.

Fixpoint read_digits (acc : option Z) (s : string) : option Z :=
  match s with
  | String c rest =>
      match digit_of c with
      | Some d => read_digits (Some (10 * default 0%Z acc + d)%Z) rest
      | None => acc
      end
  | EmptyString => acc
  end.

Definition parseInt (s : string) : option Z :=
  match skip_spaces s with
  | String "-" rest => Z.opp <$> read_digits None rest
  | String "+" rest => read_digits None rest
  | rest => read_digits None rest
  end.

(** ** The client object *)

Record Token := { access_token : string; expires_at : Q }.

(** The keys of [ENV_PREFIXES], the environments a client works in. *)
Inductive Env : Type := uat | live.

Record GuruTvapayClient := {
  env : Env;
  apiKey : option string;
  clientId : option string;
  clientSecret : option string;
  root : string;
  timeout : Q;
  maxRetries : nat;
  backoffFactor : float;
  token : option Token        (* { access_token, expires_at } or null *)
}.

Definition DEFAULT_ROOT : string := "https://api.gurutvapay.com".

Definition ENV_PREFIXES (e : Env) : string :=
  match e with
  | uat => "/uat_mode"
  | live => "/live"
  end.

(** ** Requests, responses, exceptions *)

Record RequestInit := {
  method : string;
  headers : gmap string string;
  body : option string
}.

Record Response := {
  status : Z;
  retry_after : option string;   (* res.headers.get('Retry-After') *)
  text : string                  (* await res.text() *)
}.

(** [res.ok] *)
Definition ok (res : Response) : bool :=
  (200 <=? status res)%Z && (status res <=? 299)%Z.

Inductive exn : Type :=
| Error (message : string)        (* new Error(message), thrown by the SDK *)
| TypeError (message : string)    (* fetch: network failure *)
| AbortError.                     (* fetch: aborted by controller.abort() *)

Inductive exchange : Type :=
| Resolves (res : Response)
| Rejects (e : exn).

(** ** The constructor *)

(** [root.replace(/\/$/, '')]: one slash at the very end is removed. *)
Fixpoint strip_trailing_slash (s : string) : string :=
  match s with
  | EmptyString => EmptyString
  | String c EmptyString => if Ascii.eqb c "/" then EmptyString else s
  | String c rest => String c (strip_trailing_slash rest)
  end.

(** The property names every object literal inherits from
    [Object.prototype]; each holds a function or an object. *)
Definition Object_prototype_names : list string :=
  [ "constructor"; "__defineGetter__"; "__defineSetter__"; "hasOwnProperty";
    "__lookupGetter__"; "__lookupSetter__"; "isPrototypeOf";
    "propertyIsEnumerable"; "toString"; "valueOf"; "__proto__";
    "toLocaleString" ].

(** What [ENV_PREFIXES[env]] finds for a string [env]. *)
Inductive env_entry : Type :=
| OwnPrefix (e : Env)        (* 'uat' or 'live': a prefix string *)
| Inherited                  (* a member of Object.prototype: truthy *)
| NoEntry.                   (* undefined *)

Definition ENV_PREFIXES_get (k : string) : env_entry :=
  if String.eqb k "uat" then OwnPrefix uat
  else if String.eqb k "live" then OwnPrefix live
  else if existsb (String.eqb k) Object_prototype_names then Inherited
  else NoEntry.

(** The options object of the constructor; [None] is [undefined]. *)
Record Options := {
  o_env : option string;
  o_apiKey : option string;
  o_clientId : option string;
  o_clientSecret : option string;
  o_root : option string;
  o_timeout : option Q;
  o_maxRetries : option nat;
  o_backoffFactor : option float
}.

(** What [new GuruTvapayClient(options)] does: it builds a client, or
    throws.  A client whose [env] is an inherited property name is built by
    the code but has no [Env]: it is kept apart, by that name. *)
Inductive construction : Type :=
| Constructed (c : GuruTvapayClient)
| ConstructedOutside (env : string)
| Refused (e : exn).

(** [constructor({ env = 'uat', apiKey = null, clientId = null,
    clientSecret = null, root = DEFAULT_ROOT, timeout = 30000,
    maxRetries = 3, backoffFactor = 0.5 } = {})] *)
Definition constructor (o : Options) : construction :=
  let env := default "uat" (o_env o) in
  match ENV_PREFIXES_get env with
  | NoEntry => Refused (Error "env must be 'uat' or 'live'")
  | Inherited => ConstructedOutside env
  | OwnPrefix e =>
      Constructed
        {| env := e;
           apiKey := o_apiKey o;
           clientId := o_clientId o;
           clientSecret := o_clientSecret o;
           root := strip_trailing_slash (default DEFAULT_ROOT (o_root o));
           timeout := default 30000%Q (o_timeout o);
           maxRetries := default 3%nat (o_maxRetries o);
           backoffFactor := default 0.5%float (o_backoffFactor o);
           token := None |}
  end.

(** ** World state and effects *)

Inductive event : Type :=
| SetTimeout (id : nat) (ms : Q)     (* id = setTimeout(() => controller.abort(), ms) *)
| ClearTimeout (id : nat)            (* clearTimeout(id) *)
| Fetch (url : string) (init : RequestInit)
| Sleep (ms : float).                (* await new Promise(r => setTimeout(r, ms)) *)

Record world := {
  this : GuruTvapayClient;
  nfetch : nat;                (* transport exchanges started so far *)
  log : list event             (* oldest first *)
}.

Inductive result (A : Type) : Type :=
| Ok (a : A)
| Throw (e : exn).
Arguments Ok {A} a.
Arguments Throw {A} e.

Definition M (A : Type) : Type := world -> result A * world.

Definition ret {A} (a : A) : M A := fun w => (Ok a, w).
Definition throw {A} (e : exn) : M A := fun w => (Throw e, w).
Definition bind {A B} (m : M A) (k : A -> M B) : M B :=
  fun w => match m w with
           | (Ok a, w') => k a w'
           | (Throw e, w') => (Throw e, w')
           end.

Declare Scope js_scope.
Delimit Scope js_scope with js.
Notation "x <- m ;; k" := (bind m (fun x => k))
  (at level 100, m at next level, right associativity) : js_scope.
Notation "m ;;; k" := (bind m (fun _ => k))
  (at level 100, right associativity) : js_scope.

Definition get_this : M GuruTvapayClient := fun w => (Ok (this w), w).
(** [this.token = t] *)
Definition with_token (c : GuruTvapayClient) (t : Token) : GuruTvapayClient :=
  {| env := env c; apiKey := apiKey c; clientId := clientId c;
     clientSecret := clientSecret c; root := root c;
     timeout := timeout c; maxRetries := maxRetries c;
     backoffFactor := backoffFactor c; token := Some t |}.
Definition set_token (t : Token) : M unit := fun w =>
  (Ok tt, {| this := with_token (this w) t; nfetch := nfetch w; log := log w |}).
Definition emit (e : event) : M unit := fun w =>
  (Ok tt, {| this := this w; nfetch := nfetch w; log := log w ++ [e] |}).

(** The double nearest to an integer: ties go to the even neighbour, and
    an integer beyond the range gives an infinity. *)
Definition Number_of_integer (n : Z) : float :=
  SF2Prim (binary_normalize 53 1024 n 0 false).

(** [Math.pow(2, e)] for an integer [e]: the exact power of two while it
    is a double, [Infinity] above the range and 0 below it. *)
Fixpoint doubled (n : nat) : float :=
  match n with
  | O => 1%float
  | S n' => (2 * doubled n')%float
  end.

Fixpoint halved (n : nat) : float :=
  match n with
  | O => 1%float
  | S n' => (0.5 * halved n')%float
  end.

Definition Math_pow2 (e : Z) : float :=
  match e with
  | Z0 => 1%float
  | Zpos p => doubled (Pos.to_nat p)
  | Zneg p => halved (Pos.to_nat p)
  end.

(** The exponential delay [backoffFactor * Math.pow(2, attempt - 1) * 1000],
    a product of doubles. *)
Definition backoff_ms (c : GuruTvapayClient) (attempt : nat) : float :=
  (backoffFactor c * Math_pow2 (Z.of_nat attempt - 1) * 1000)%float.

(** [parseInt(retryAfter, 10) || backoff]: NaN and 0 are falsy. *)
Definition retry_after_wait (retryAfter : string) (backoff : float) : float :=
  match parseInt retryAfter with
  | Some n => if (n =? 0)%Z then backoff else Number_of_integer n
  | None => backoff
  end.

(** ** Byte buffers and the hex codec of [Buffer]

    A [Buffer] is a list of 8-bit values; JS strings are modelled by Rocq
    strings, whose characters are 8-bit as well. *)

Definition Buffer : Type := list ascii.

Definition Buffer_from_string (s : string) : Buffer := list_ascii_of_string s.

(** One hex digit, as the decoder of [Buffer.from(s, 'hex')] reads it: both
    letter cases are accepted. *)
Definition unhex (c : ascii) : option N :=
  let n := N_of_ascii c in
  if ((48 <=? n) && (n <=? 57))%N then Some (n - 48)%N
  else if ((97 <=? n) && (n <=? 102))%N then Some (n - 87)%N
  else if ((65 <=? n) && (n <=? 70))%N then Some (n - 55)%N
  else None.

(** [Buffer.from(s, 'hex')]: pairs of hex digits are decoded from the left;
    decoding stops at the first pair that is not two hex digits, and a
    trailing single character is dropped. *)
Fixpoint Buffer_from_hex (s : string) : Buffer :=
  match s with
  | String a (String b rest) =>
      match unhex a, unhex b with
      | Some x, Some y => ascii_of_N (16 * x + y) :: Buffer_from_hex rest
      | _, _ => []
      end
  | _ => []
  end.

Definition hex_digit (n : N) : ascii :=
  if (n <? 10)%N then ascii_of_N (48 + n) else ascii_of_N (87 + n).

(** [buf.toString('hex')] / [digest('hex')]: lower-case digits. *)
Fixpoint hex_encode (b : Buffer) : string :=
  match b with
  | c :: rest =>
      String (hex_digit (N_of_ascii c / 16))
        (String (hex_digit (N_of_ascii c mod 16)) (hex_encode rest))
  | [] => EmptyString
  end.

(** ** SHA-256 and HMAC (FIPS 180-4, RFC 2104), the algorithms behind
    [crypto.createHmac('sha256', key).update(data).digest()] *)

Module Sha256.

Open Scope Z_scope.

Definition w32 (x : Z) : Z := x mod 2 ^ 32.
Definition add32 (x y : Z) : Z := w32 (x + y).
Definition rotr (n x : Z) : Z :=
  Z.lor (Z.shiftr x n) (w32 (Z.shiftl x (32 - n))).
Definition not32 (x : Z) : Z := 2 ^ 32 - 1 - x.

Definition Ch (x y z : Z) : Z := Z.lxor (Z.land x y) (Z.land (not32 x) z).
Definition Maj (x y z : Z) : Z :=
  Z.lxor (Z.lxor (Z.land x y) (Z.land x z)) (Z.land y z).
Definition Sigma0 (x : Z) : Z := Z.lxor (Z.lxor (rotr 2 x) (rotr 13 x)) (rotr 22 x).
Definition Sigma1 (x : Z) : Z := Z.lxor (Z.lxor (rotr 6 x) (rotr 11 x)) (rotr 25 x).
Definition sigma0 (x : Z) : Z := Z.lxor (Z.lxor (rotr 7 x) (rotr 18 x)) (Z.shiftr x 3).
Definition sigma1 (x : Z) : Z := Z.lxor (Z.lxor (rotr 17 x) (rotr 19 x)) (Z.shiftr x 10).

(** The first 64 primes. *)
Definition primes : list Z :=
  [ 2; 3; 5; 7; 11; 13; 17; 19; 23; 29; 31; 37; 41; 43; 47; 53; 59; 61; 67;
    71; 73; 79; 83; 89; 97; 101; 103; 107; 109; 113; 127; 131; 137; 139; 149;
    151; 157; 163; 167; 173; 179; 181; 191; 193; 197; 199; 211; 223; 227; 229;
    233; 239; 241; 251; 257; 263; 269; 271; 277; 281; 283; 293; 307; 311 ].

(** The integer cube root of [n] below [2 ^ b], found bit by bit. *)
Fixpoint cbrt_bits (b : nat) (n x : Z) : Z :=
  match b with
  | O => x
  | S b' =>
      let y := x + 2 ^ Z.of_nat b' in
      cbrt_bits b' n (if y * y * y <=? n then y else x)
  end.

(** The round constants: the first 32 bits of the fractional parts of the
    cube roots of the first 64 primes. *)
Definition K : list Z :=
  Eval vm_compute in map (fun p => w32 (cbrt_bits 40 (p * 2 ^ 96) 0)) primes.

(** The initial hash value: the first 32 bits of the fractional parts of
    the square roots of the first 8 primes. *)
Definition H0 : list Z :=
  Eval vm_compute in map (fun p => w32 (Z.sqrt (p * 2 ^ 64))) (firstn 8 primes).

Definition byte_val (c : ascii) : Z := Z.of_N (N_of_ascii c).
Definition val_byte (x : Z) : ascii := ascii_of_N (Z.to_N (x mod 256)).

(** Big-endian encoding of [x] on [n] bytes. *)
Fixpoint be_bytes (n : nat) (x : Z) : Buffer :=
  match n with
  | O => []
  | S n' => val_byte (Z.shiftr x (8 * Z.of_nat n')) :: be_bytes n' x
  end.

(** Padding: a one bit, zeros up to 56 mod 64, then the bit length on 64 bits. *)
Definition pad (msg : Buffer) : Buffer :=
  let len := Z.of_nat (length msg) in
  let zeros := Z.to_nat ((55 - len) mod 64) in
  (msg ++ [ascii_of_N 128] ++ repeat (ascii_of_N 0) zeros ++ be_bytes 8 (8 * len))%list.

Fixpoint words (n : nat) (b : Buffer) : list Z :=
  match n, b with
  | S n', b0 :: b1 :: b2 :: b3 :: rest =>
      (byte_val b0 * 2 ^ 24 + byte_val b1 * 2 ^ 16 + byte_val b2 * 2 ^ 8 + byte_val b3)
        :: words n' rest
  | _, _ => []
  end.

(** The message schedule, kept newest first: [w] holds W[t-1], W[t-2], ... *)
Fixpoint schedule (n : nat) (w : list Z) : list Z :=
  match n with
  | O => w
  | S n' =>
      let wt := add32 (add32 (sigma1 (nth 1 w 0)) (nth 6 w 0))
                      (add32 (sigma0 (nth 14 w 0)) (nth 15 w 0)) in
      schedule n' (wt :: w)
  end.

Definition round (st : list Z) (kw : Z * Z) : list Z :=
  match st with
  | [a; b; c; d; e; f; g; h] =>
      let t1 := add32 (add32 (add32 h (Sigma1 e)) (add32 (Ch e f g) (fst kw))) (snd kw) in
      let t2 := add32 (Sigma0 a) (Maj a b c) in
      [add32 t1 t2; a; b; c; add32 d t1; e; f; g]
  | _ => st
  end.

Definition compress (h : list Z) (block : Buffer) : list Z :=
  let w := rev (schedule 48 (rev (words 16 block))) in
  let st := fold_left round (combine K w) h in
  map (fun p => add32 (fst p) (snd p)) (combine h st).

Fixpoint blocks (n : nat) (h : list Z) (b : Buffer) : list Z :=
  match n with
  | O => h
  | S n' => blocks n' (compress h (firstn 64 b)) (skipn 64 b)
  end.

Definition sha256 (msg : Buffer) : Buffer :=
  let p := pad msg in
  flat_map (be_bytes 4) (blocks (length p / 64) H0 p).

Definition xor_byte (x : Z) (c : ascii) : ascii :=
  val_byte (Z.lxor x (byte_val c)).

Definition hmac (key msg : Buffer) : Buffer :=
  let k0 := if (64 <? Z.of_nat (length key)) then sha256 key else key in
  let k := (k0 ++ repeat (ascii_of_N 0) (64 - length k0))%list in
  sha256 (map (xor_byte 0x5c) k ++ sha256 (map (xor_byte 0x36) k ++ msg))%list.

End Sha256.

(** [crypto.timingSafeEqual(a, b)]: throws when the lengths differ,
    otherwise tells whether the two buffers hold the same bytes. *)
Definition timingSafeEqual (a b : Buffer) : result bool :=
  if negb (length a =? length b)%nat
  then Throw (Error "Input buffers must have the same byte length")
  else Ok (bool_decide (a = b)).

(** [str.split('=')]: the pieces between the separators. *)
Fixpoint split_eq (s : string) : list string :=
  match s with
  | EmptyString => [EmptyString]
  | String c rest =>
      if Ascii.eqb c "=" then EmptyString :: split_eq rest
      else match split_eq rest with
           | p :: ps => String c p :: ps
           | [] => [String c EmptyString]
           end
  end.

(** [signatureHeader.startsWith('sha256=') ? signatureHeader.split('=')[1]
    : signatureHeader] *)
Definition signature_hex (signatureHeader : string) : string :=
  if String.prefix "sha256=" signatureHeader
  then default "" (split_eq signatureHeader !! 1%nat)
  else signatureHeader.

(** [static verifyWebhook(payloadBytes, signatureHeader, secret)];
    [None] is an absent header ([undefined]). *)
Definition verifyWebhook (payloadBytes : Buffer) (signatureHeader : option string)
    (secret : string) : result bool :=
  if negb (truthy_str signatureHeader) then Ok false else
  let h := default "" signatureHeader in
  let sigHex := signature_hex h in
  let mac := hex_encode (Sha256.hmac (Buffer_from_string secret) payloadBytes) in
  let sigBuf := Buffer_from_hex sigHex in
  let macBuf := Buffer_from_hex mac in
  if negb (length sigBuf =? length macBuf)%nat then Ok false else
  timingSafeEqual sigBuf macBuf.

(** What the [try] block of one invocation completes with when it does not
    throw: a value, or the promise of the recursive call.  That promise is
    returned without [await], so its rejection is not caught by the
    enclosing [catch]. *)
Inductive completion : Type :=
| Return (v : json)
| ReturnRetry.

Section Client.

(** The transport: the [n]-th call of [fetch] (counted from 1 over the
    life of the world) with its URL and options. *)
Variable fetch : nat -> string -> RequestInit -> exchange.
Variable JSON_parse : string -> option json.
Variable JSON_stringify : json -> string.
Variable URLSearchParams_toString : list (string * string) -> string.

Open Scope js_scope.

(** [await fetch(url, { ...options, signal })] *)
Definition await_fetch (url : string) (options : RequestInit) : M Response :=
  fun w =>
    let n := S (nfetch w) in
    let w' := {| this := this w; nfetch := n;
                 log := log w ++ [Fetch url options] |} in
    match fetch n url options with
    | Resolves res => (Ok res, w')
    | Rejects e => (Throw e, w')
    end.

(** [const id = setTimeout(() => controller.abort(), ms)]; timers are
    named after the exchange they guard. *)
Definition setTimeout_abort (ms : Q) : M nat :=
  fun w => let id := S (nfetch w) in
           (Ok id, {| this := this w; nfetch := nfetch w;
                      log := log w ++ [SetTimeout id ms] |}).

(** Lines 73-105: the body of [try]. *)
Definition try_block (url : string) (options : RequestInit) (attempt : nat)
  : M completion :=
  c <- get_this ;;
  id <- setTimeout_abort (timeout c) ;;
  res <- await_fetch url options ;;
  emit (ClearTimeout id) ;;;
  if ok res then
    ret (Return (match JSON_parse (text res) with
                 | Some v => v
                 | None => JObj [("raw", JStr (text res))]
                 end))
  else if (status res =? 401)%Z || (status res =? 403)%Z then
    throw (Error ("AuthError: " +:+ Number_toString (status res) +:+ " " +:+ text res))
  else if (status res =? 404)%Z then
    throw (Error ("NotFound: " +:+ url))
  else if (status res =? 429)%Z then
    if truthy_str (retry_after res) && (attempt <=? maxRetries c)%nat then
      emit (Sleep (retry_after_wait (default "" (retry_after res))
                                    (backoff_ms c attempt))) ;;;
      ret ReturnRetry
    else throw (Error ("RateLimit: " +:+ text res))
  else if (500 <=? status res)%Z && (attempt <=? maxRetries c)%nat then
    emit (Sleep (backoff_ms c attempt)) ;;;
    ret ReturnRetry
  else
    throw (Error ("HTTP " +:+ Number_toString (status res) +:+ ": " +:+ text res)).

Lemma try_block_this url options attempt w :
  this (snd (try_block url options attempt w)) = this w.
Proof.
  unfold try_block, bind, get_this, setTimeout_abort, await_fetch, emit, ret, throw.
  cbn.
  destruct (fetch _ _ _) as [res|e]; cbn; [|reflexivity].
  repeat (match goal with |- context [if ?b then _ else _] => destruct b end;
          cbn; try reflexivity).
Qed.

Lemma try_block_retry url options attempt w w' :
  try_block url options attempt w = (Ok ReturnRetry, w') ->
  (attempt <= maxRetries (this w))%nat.
Proof.
  unfold try_block, bind, get_this, setTimeout_abort, await_fetch, emit, ret, throw.
  cbn.
  destruct (fetch _ _ _) as [res|e]; cbn; [|discriminate].
  repeat (match goal with
          | |- context [if ?b then _ else _] => destruct b eqn:?
          end; cbn; try discriminate).
  all: intros _;
    repeat match goal with
           | H : (_ && _) = true |- _ => apply andb_prop in H; destruct H
           | H : (_ <=? _)%nat = true |- _ => apply Nat.leb_le in H
           end; assumption.
Qed.

Definition inspect {A} (a : A) : {b : A | a = b} := exist _ a eq_refl.

(** [async _fetchWithRetry(url, options = {}, attempt = 0)].  The argument
    [attempt] is the count on entry; the body works with [attempt + 1]
    ([attempt += 1], line 71).  Whatever the [try] block throws, a transport
    failure or one of its own errors, reaches the [catch] clause (lines
    106-114).  The recursion is on the retries left. *)
Equations? _fetchWithRetry (url : string) (options : RequestInit)
    (attempt : nat) (w : world) : result json * world
    by wf (S (maxRetries (this w)) - attempt)%nat lt :=
  _fetchWithRetry url options attempt w
    with inspect (try_block url options (attempt + 1) w) := {
    | exist _ (Ok (Return v), w1) _ := (Ok v, w1);
    | exist _ (Ok ReturnRetry, w1) _ :=
        _fetchWithRetry url options (attempt + 1) w1;
    | exist _ (Throw err, w1) _
        (* catch (err) { if (attempt <= this.maxRetries) ... throw err } *)
        with decide (attempt + 1 <= maxRetries (this w1))%nat := {
        | left _ :=
            let w2 := snd (emit (Sleep (backoff_ms (this w1) (attempt + 1))) w1) in
            _fetchWithRetry url options (attempt + 1) w2;
        | right _ := (Throw err, w1) } }.
Proof.
  - pose proof (try_block_this url options (attempt + 1) w) as Ht.
    pose proof (try_block_retry url options (attempt + 1) w w1) as Hr.
    rewrite e in Ht. specialize (Hr e). cbn in Ht. rewrite Ht. lia.
  - pose proof (try_block_this url options (attempt + 1) w) as Ht.
    rewrite e in Ht. cbn in Ht. cbn. rewrite <- Ht. lia.
Qed.

(** [{ ...a, ...b }]: the properties of [b] are written after those of [a]. *)
Definition spread (a b : gmap string string) : gmap string string := b ∪ a.

(** [a < b] on numbers. *)
Definition Qltb (a b : Q) : bool := negb (Qle_bool b a).

(** [_authHeader()]; [now] is the value of [Date.now()]. *)
Definition _authHeader (now : Z) : M (gmap string string) :=
  c <- get_this ;;
  if truthy_str (apiKey c) then
    ret {[ "Authorization" := "Bearer " +:+ default "" (apiKey c) ]}
  else
    match token c with
    | Some t =>
        if Qltb (inject_Z now / 1000) (expires_at t - 10) then
          ret {[ "Authorization" := "Bearer " +:+ access_token t ]}
        else ret ∅
    | None => ret ∅
    end.

(** Property reads on a decoded value.  [v.k] is the property [k] of an
    object, whose properties have distinct names, and [undefined] ([None])
    on a number, a string, a boolean or an array: the names read here are
    no index and none of the inherited ones. *)
Fixpoint assoc (k : string) (props : list (string * json)) : option json :=
  match props with
  | (k', v) :: rest => if String.eqb k k' then Some v else assoc k rest
  | [] => None
  end.

Definition get_prop (k : string) (v : json) : option json :=
  match v with
  | JObj props => assoc k props
  | _ => None
  end.

(** ToBoolean of a value that may be [undefined]. *)
Definition truthy_opt (v : option json) : bool :=
  match v with
  | Some v => truthy v
  | None => false
  end.

(** [res.expires_at || (Math.floor(Date.now() / 1000) + (res.expires_in || 0))]
    (lines 124-125) where its value is a number.  A truthy [expires_at] is
    taken as it is, whatever its type; [+] adds a number or a boolean and
    concatenates anything else.  [None] stands for a value that is not a
    number. *)
Definition login_expires_at (now : Z) (res : json) : option Q :=
  if truthy_opt (get_prop "expires_at" res) then
    match get_prop "expires_at" res with
    | Some (JNum e) => Some e
    | _ => None
    end
  else
    let seconds := inject_Z (Qfloor (inject_Z now / 1000)) in
    if truthy_opt (get_prop "expires_in" res) then
      match get_prop "expires_in" res with
      | Some (JNum q) => Some (seconds + q)%Q
      | Some (JBool true) => Some (seconds + 1)%Q
      | _ => None
      end
    else Some (seconds + 0)%Q.

(** [loginWithPassword(username, password, grant_type = 'password')];
    [now] is the value of [Date.now()] on line 124.

    The test of line 123 is on truthiness alone: any truthy [access_token]
    passes, whatever its type.  The token the client keeps is the typed
    [Token] that [_authHeader] reads, a string with a number; where the
    code would store an [access_token] that is not a string or an expiry
    that is not a number, the run is outside this type and the result is
    [None]. *)
Definition loginWithPassword (now : Z) (username password : string)
    (grant_type : option string) (w : world) : option (result Token * world) :=
  let c := this w in
  if negb (truthy_str (clientId c)) || negb (truthy_str (clientSecret c)) then
    Some (throw (Error "clientId and clientSecret required") w)
  else
    let url := root c +:+ ENV_PREFIXES (env c) +:+ "/login" in
    let body := URLSearchParams_toString
                  [ ("grant_type", default "password" grant_type);
                    ("username", username); ("password", password);
                    ("client_id", default "" (clientId c));
                    ("client_secret", default "" (clientSecret c)) ] in
    let headers := {[ "Content-Type" := "application/x-www-form-urlencoded" ]} in
    match _fetchWithRetry url
            {| method := "POST"; headers := headers; body := Some body |} 0 w with
    | (Throw e, w1) => Some (Throw e, w1)
    | (Ok res, w1) =>
        if negb (truthy res) || negb (truthy_opt (get_prop "access_token" res)) then
          Some (throw (Error "Login failed") w1)
        else
          match get_prop "access_token" res, login_expires_at now res with
          | Some (JStr tok), Some expires_at =>
              let t := {| access_token := tok; expires_at := expires_at |} in
              Some ((set_token t ;;; ret t) w1)
          | _, _ => None
          end
    end.

(** The argument object of [createPayment]; [None] is [undefined]. *)
Record PaymentArgs := {
  amount : option json;
  merchantOrderId : option json;
  channel : option json;
  purpose : option json;
  customer : option json;
  pay_expires_in : option json;
  metadata : option json
}.

Definition is_null (v : json) : bool :=
  match v with JNull => true | _ => false end.

(** A property whose value is [undefined] is not serialised. *)
Definition defined_prop (k : string) (v : option json) : list (string * json) :=
  match v with Some v => [(k, v)] | None => [] end.

(** [createPayment({ amount, merchantOrderId, channel = 'web', ... } = {},
    extraHeaders = {})] *)
Definition createPayment (now : Z) (a : PaymentArgs)
    (extraHeaders : gmap string string) : M json :=
  c <- get_this ;;
  let url := root c +:+ "/initiate-payment" in
  auth <- _authHeader now ;;
  let headers :=
    spread (spread {[ "Content-Type" := "application/json" ]} auth) extraHeaders in
  let expires_in := default JNull (pay_expires_in a) in
  let metadata := default JNull (metadata a) in
  let payload :=
    JObj (defined_prop "amount" (amount a)
          ++ defined_prop "merchantOrderId" (merchantOrderId a)
          ++ [ ("channel", default (JStr "web") (channel a));
               ("purpose", default (JStr "Online Payment") (purpose a));
               ("customer", default (JObj []) (customer a)) ]
          ++ (if negb (is_null expires_in) then [("expires_in", expires_in)] else [])
          ++ (if negb (is_null metadata) then [("metadata", metadata)] else []))%list in
  _fetchWithRetry url
    {| method := "POST"; headers := headers; body := Some (JSON_stringify payload) |} 0.

(** [transactionStatus(merchantOrderId)] *)
Definition transactionStatus (now : Z) (merchantOrderId : string) : M json :=
  c <- get_this ;;
  let url := root c +:+ ENV_PREFIXES (env c)
             +:+ "/transaction-status" in
  let body := URLSearchParams_toString [("merchantOrderId", merchantOrderId)] in
  auth <- _authHeader now ;;
  let headers :=
    spread {[ "Content-Type" := "application/x-www-form-urlencoded" ]} auth in
  _fetchWithRetry url {| method := "POST"; headers := headers; body := Some body |} 0.

(** [transactionList(limit = 50, page = 0)] *)
Definition transactionList (now : Z) (limit page : option Z) : M json :=
  c <- get_this ;;
  let url := root c +:+ ENV_PREFIXES (env c)
             +:+ "/transaction-list?limit=" +:+ Number_toString (default 50%Z limit)
             +:+ "&page=" +:+ Number_toString (default 0%Z page) in
  auth <- _authHeader now ;;
  let headers := spread ∅ auth in
  _fetchWithRetry url {| method := "GET"; headers := headers; body := None |} 0.

(** The options object of [request]: [{ headers = {}, params = null,
    data = null, jsonBody = null }]. *)
Record RequestOptions := {
  opt_headers : gmap string string;
  opt_params : option (list (string * string));
  opt_data : option (string + list (string * string));
  opt_jsonBody : option json
}.

(** [s.includes(c)] *)
Fixpoint includes (c : ascii) (s : string) : bool :=
  match s with
  | String c' rest => Ascii.eqb c c' || includes c rest
  | EmptyString => false
  end.

(** ToBoolean of [data]: a string or an object. *)
Definition truthy_data (d : option (string + list (string * string))) : bool :=
  match d with
  | Some (inl s) => negb (String.eqb s "")
  | Some (inr _) => true
  | None => false
  end.

(** [request(method, pathOrUrl, { headers, params, data, jsonBody } = {})] *)
Definition request (now : Z) (method : string) (pathOrUrl : string)
    (o : RequestOptions) : M json :=
  c <- get_this ;;
  let url :=
    if negb (String.prefix "http://" pathOrUrl || String.prefix "https://" pathOrUrl)
    then root c +:+ (if String.prefix "/" pathOrUrl then "" else "/") +:+ pathOrUrl
    else pathOrUrl in
  let url :=
    match opt_params o with
    | Some params =>
        let qs := URLSearchParams_toString params in
        url +:+ (if includes "?" url then "&" else "?") +:+ qs
    | None => url
    end in
  auth <- _authHeader now ;;
  let allHeaders := spread auth (opt_headers o) in
  let opts :=
    if truthy (default JNull (opt_jsonBody o)) then
      {| method := method;
         headers := spread {[ "Content-Type" := "application/json" ]} allHeaders;
         body := Some (JSON_stringify (default JNull (opt_jsonBody o))) |}
    else if truthy_data (opt_data o) then
      {| method := method;
         headers := spread {[ "Content-Type" := "application/x-www-form-urlencoded" ]}
                           allHeaders;
         body := Some (match opt_data o with
                       | Some (inl s) => s
                       | Some (inr d) => URLSearchParams_toString d
                       | None => ""
                       end) |}
    else {| method := method; headers := allHeaders; body := None |} in
  _fetchWithRetry url opts 0.

End Client.



(** * Properties *)

(** The world after [k] more transport exchanges and the events [evs]. *)
Definition push (w : world) (k : nat) (evs : list event) : world :=
  {| this := this w; nfetch := k + nfetch w; log := (log w ++ evs)%list |}.

(** The events of one exchange that the transport answers. *)
Definition answered (c : GuruTvapayClient) (id : nat) (url : string)
    (options : RequestInit) : list event :=
  [SetTimeout id (timeout c); Fetch url options; ClearTimeout id].

(** The events of one exchange that the transport rejects. *)
Definition rejected (c : GuruTvapayClient) (id : nat) (url : string)
    (options : RequestInit) : list event :=
  [SetTimeout id (timeout c); Fetch url options].

(** The exception the [try] block throws for a response that is not [ok]
    and is not retried inside the block. *)
Definition rejection (url : string) (res : Response) : exn :=
  if (status res =? 401)%Z || (status res =? 403)%Z then
    Error ("AuthError: " +:+ Number_toString (status res) +:+ " " +:+ text res)
  else if (status res =? 404)%Z then Error ("NotFound: " +:+ url)
  else if (status res =? 429)%Z then Error ("RateLimit: " +:+ text res)
  else Error ("HTTP " +:+ Number_toString (status res) +:+ ": " +:+ text res).

Fixpoint fetch_count (evs : list event) : nat :=
  match evs with
  | Fetch _ _ :: rest => S (fetch_count rest)
  | _ :: rest => fetch_count rest
  | [] => O
  end.

Fixpoint sleeps (evs : list event) : list float :=
  match evs with
  | Sleep ms :: rest => ms :: sleeps rest
  | _ :: rest => sleeps rest
  | [] => []
  end.

Lemma push_push w k evs k' evs' :
  push (push w k evs) k' evs' = push w (k' + k) (evs ++ evs')%list.
Proof.
  unfold push; cbn. f_equal; [lia | apply eq_sym, app_assoc].
Qed.

Lemma push_0_nil w : push w 0 [] = w.
Proof. destruct w; unfold push; cbn. by rewrite app_nil_r. Qed.

Lemma sleeps_app a b : sleeps (a ++ b)%list = (sleeps a ++ sleeps b)%list.
Proof.
  induction a as [|[] a IH]; cbn; rewrite ?IH; reflexivity.
Qed.

Lemma fetch_count_app a b : fetch_count (a ++ b)%list = (fetch_count a + fetch_count b)%nat.
Proof.
  induction a as [|[] a IH]; cbn; rewrite ?IH; reflexivity.
Qed.

Section Dispatcher.

Variable fetch : nat -> string -> RequestInit -> exchange.
Variable JSON_parse : string -> option json.

Local Abbreviation dispatch := (_fetchWithRetry fetch JSON_parse).
Local Abbreviation attempt_once := (try_block fetch JSON_parse).

Lemma _fetchWithRetry_eq url options attempt w :
  dispatch url options attempt w =
  match attempt_once url options (attempt + 1) w with
  | (Ok (Return v), w1) => (Ok v, w1)
  | (Ok ReturnRetry, w1) => dispatch url options (attempt + 1) w1
  | (Throw err, w1) =>
      if decide (attempt + 1 <= maxRetries (this w1))%nat
      then dispatch url options (attempt + 1)
             (snd (emit (Sleep (backoff_ms (this w1) (attempt + 1))) w1))
      else (Throw err, w1)
  end.
Proof.
  funelim (dispatch url options attempt w);
    match goal with H : attempt_once _ _ _ _ = _ |- _ => rewrite H end; cbn;
    try reflexivity.
  all: destruct (decide _); [reflexivity || contradiction | reflexivity || contradiction].
Qed.

Ltac run_try H :=
  unfold try_block, bind, get_this, setTimeout_abort, await_fetch, emit, ret, throw;
  cbn; rewrite H; cbn.

Lemma try_block_rejects url options attempt w e :
  fetch (S (nfetch w)) url options = Rejects e ->
  attempt_once url options attempt w
  = (Throw e, push w 1 (rejected (this w) (S (nfetch w)) url options)).
Proof.
  intros H. run_try H. unfold push, rejected; cbn.
  by rewrite <- !app_assoc.
Qed.

Lemma try_block_ok url options attempt w res :
  fetch (S (nfetch w)) url options = Resolves res ->
  ok res = true ->
  attempt_once url options attempt w
  = (Ok (Return (match JSON_parse (text res) with
                 | Some v => v
                 | None => JObj [("raw", JStr (text res))]
                 end)),
     push w 1 (answered (this w) (S (nfetch w)) url options)).
Proof.
  intros H Hok. run_try H. rewrite Hok. unfold push, answered; cbn.
  by rewrite <- !app_assoc.
Qed.

Lemma try_block_hint url options attempt w res ra :
  fetch (S (nfetch w)) url options = Resolves res ->
  status res = 429%Z -> retry_after res = Some ra -> ra <> "" ->
  (attempt <= maxRetries (this w))%nat ->
  attempt_once url options attempt w
  = (Ok ReturnRetry,
     push w 1 (answered (this w) (S (nfetch w)) url options
               ++ [Sleep (retry_after_wait ra (backoff_ms (this w) attempt))])).
Proof.
  intros H Hs Hra Hne Hle. run_try H. unfold ok. rewrite Hs, Hra. cbn.
  destruct (String.eqb_spec ra ""); [contradiction|]. cbn.
  apply Nat.leb_le in Hle. rewrite Hle. cbn.
  unfold push, answered; cbn. by rewrite <- !app_assoc.
Qed.

(** A response that is neither [ok] nor a 429 with a usable hint ends the
    [try] block with a backoff retry (5xx within budget) or a throw. *)
Lemma try_block_failed url options attempt w res :
  fetch (S (nfetch w)) url options = Resolves res ->
  ok res = false ->
  (status res =? 429)%Z && truthy_str (retry_after res) = false ->
  attempt_once url options attempt w
  = if (500 <=? status res)%Z && (attempt <=? maxRetries (this w))%nat
    then (Ok ReturnRetry,
          push w 1 (answered (this w) (S (nfetch w)) url options
                    ++ [Sleep (backoff_ms (this w) attempt)]))
    else (Throw (rejection url res),
          push w 1 (answered (this w) (S (nfetch w)) url options)).
Proof.
  intros H Hok Hh. run_try H. rewrite Hok. unfold rejection, push, answered.
  destruct ((status res =? 401)%Z || (status res =? 403)%Z) eqn:E1; cbn.
  { assert ((500 <=? status res)%Z = false) as -> by lia.
    cbn. by rewrite <- !app_assoc. }
  destruct (status res =? 404)%Z eqn:E2; cbn.
  { assert ((500 <=? status res)%Z = false) as -> by lia.
    cbn. by rewrite <- !app_assoc. }
  destruct (status res =? 429)%Z eqn:E3; cbn.
  { cbn in Hh. rewrite Hh. cbn.
    assert ((500 <=? status res)%Z = false) as -> by lia.
    cbn. by rewrite <- !app_assoc. }
  destruct ((500 <=? status res)%Z && (attempt <=? maxRetries (this w))%nat);
    cbn; by rewrite <- !app_assoc.
Qed.

(** ** Step lemmas: one invocation of the dispatcher *)

Lemma dispatch_ok url options attempt w res :
  fetch (S (nfetch w)) url options = Resolves res ->
  ok res = true ->
  dispatch url options attempt w
  = (Ok (match JSON_parse (text res) with
         | Some v => v
         | None => JObj [("raw", JStr (text res))]
         end),
     push w 1 (answered (this w) (S (nfetch w)) url options)).
Proof.
  intros H Hok. rewrite _fetchWithRetry_eq.
  by rewrite (try_block_ok _ _ _ _ _ H Hok).
Qed.

Lemma dispatch_hint url options attempt w res ra :
  fetch (S (nfetch w)) url options = Resolves res ->
  status res = 429%Z -> retry_after res = Some ra -> ra <> "" ->
  (attempt + 1 <= maxRetries (this w))%nat ->
  dispatch url options attempt w
  = dispatch url options (attempt + 1)
      (push w 1 (answered (this w) (S (nfetch w)) url options
                 ++ [Sleep (retry_after_wait ra (backoff_ms (this w) (attempt + 1)))])).
Proof.
  intros H Hs Hra Hne Hle. rewrite _fetchWithRetry_eq.
  by rewrite (try_block_hint _ _ _ _ _ _ H Hs Hra Hne Hle).
Qed.

Lemma dispatch_failed_retry url options attempt w res :
  fetch (S (nfetch w)) url options = Resolves res ->
  ok res = false ->
  (status res =? 429)%Z && truthy_str (retry_after res) = false ->
  (attempt + 1 <= maxRetries (this w))%nat ->
  dispatch url options attempt w
  = dispatch url options (attempt + 1)
      (push w 1 (answered (this w) (S (nfetch w)) url options
                 ++ [Sleep (backoff_ms (this w) (attempt + 1))])).
Proof.
  intros H Hok Hh Hle. rewrite _fetchWithRetry_eq.
  rewrite (try_block_failed _ _ _ _ _ H Hok Hh).
  assert ((attempt + 1 <=? maxRetries (this w))%nat = true) as -> by by apply Nat.leb_le.
  destruct (500 <=? status res)%Z; cbn; [reflexivity|].
  destruct (decide _) as [_|n]; [|contradiction].
  unfold push; cbn. by rewrite <- !app_assoc.
Qed.

Lemma dispatch_failed_final url options attempt w res :
  fetch (S (nfetch w)) url options = Resolves res ->
  ok res = false ->
  (status res =? 429)%Z && truthy_str (retry_after res) = false ->
  ~ (attempt + 1 <= maxRetries (this w))%nat ->
  dispatch url options attempt w
  = (Throw (rejection url res),
     push w 1 (answered (this w) (S (nfetch w)) url options)).
Proof.
  intros H Hok Hh Hle. rewrite _fetchWithRetry_eq.
  rewrite (try_block_failed _ _ _ _ _ H Hok Hh).
  assert ((attempt + 1 <=? maxRetries (this w))%nat = false) as ->
    by by apply Nat.leb_nle.
  rewrite andb_false_r. cbn.
  destruct (decide _) as [|_]; [contradiction|reflexivity].
Qed.

Lemma dispatch_rejected_retry url options attempt w e :
  fetch (S (nfetch w)) url options = Rejects e ->
  (attempt + 1 <= maxRetries (this w))%nat ->
  dispatch url options attempt w
  = dispatch url options (attempt + 1)
      (push w 1 (rejected (this w) (S (nfetch w)) url options
                 ++ [Sleep (backoff_ms (this w) (attempt + 1))])).
Proof.
  intros H Hle. rewrite _fetchWithRetry_eq.
  rewrite (try_block_rejects _ _ _ _ _ H). cbn.
  destruct (decide _) as [_|n]; [|contradiction].
  unfold push; cbn. by rewrite <- !app_assoc.
Qed.

Lemma dispatch_rejected_final url options attempt w e :
  fetch (S (nfetch w)) url options = Rejects e ->
  ~ (attempt + 1 <= maxRetries (this w))%nat ->
  dispatch url options attempt w
  = (Throw e, push w 1 (rejected (this w) (S (nfetch w)) url options)).
Proof.
  intros H Hle. rewrite _fetchWithRetry_eq.
  rewrite (try_block_rejects _ _ _ _ _ H). cbn.
  destruct (decide _) as [|_]; [contradiction|reflexivity].
Qed.

(** ** Runs in which every attempt fails *)

(** The events of [S k] failed exchanges, the first with timer [id] at
    attempt number [attempt], each but the last followed by its backoff. *)
Fixpoint failing_trace (c : GuruTvapayClient) (url : string) (options : RequestInit)
    (id attempt k : nat) : list event :=
  match k with
  | O => answered c id url options
  | S k' =>
      (answered c id url options ++ [Sleep (backoff_ms c attempt)]
       ++ failing_trace c url options (S id) (S attempt) k')%list
  end.

Lemma fetch_count_failing_trace c url options id attempt k :
  fetch_count (failing_trace c url options id attempt k) = S k.
Proof.
  revert id attempt; induction k as [|k IH]; intros id attempt; cbn; [reflexivity|].
  by rewrite IH.
Qed.

Lemma sleeps_failing_trace c url options id attempt k :
  sleeps (failing_trace c url options id attempt k)
  = map (backoff_ms c) (seq attempt k).
Proof.
  revert id attempt; induction k as [|k IH]; intros id attempt; cbn; [reflexivity|].
  by rewrite IH.
Qed.

Lemma dispatch_all_failing url options :
  (forall n, exists res,
      fetch n url options = Resolves res /\ ok res = false
      /\ (status res =? 429)%Z && truthy_str (retry_after res) = false) ->
  forall k attempt w,
    maxRetries (this w) = (attempt + k)%nat ->
    exists last,
      fetch (S (nfetch w) + k) url options = Resolves last
      /\ dispatch url options attempt w
         = (Throw (rejection url last),
            push w (S k)
              (failing_trace (this w) url options (S (nfetch w)) (attempt + 1) k)).
Proof.
  intros Hall. induction k as [|k IH]; intros attempt w Hm.
  - destruct (Hall (S (nfetch w))) as (res & Hf & Hok & Hh).
    exists res. rewrite Nat.add_0_r. split; [exact Hf|].
    apply dispatch_failed_final; try assumption. lia.
  - destruct (Hall (S (nfetch w))) as (res & Hf & Hok & Hh).
    rewrite (dispatch_failed_retry _ _ _ _ _ Hf Hok Hh) by lia.
    set (w1 := push w 1 _).
    destruct (IH (attempt + 1)%nat w1) as (last & Hl & Hrun); [cbn; lia|].
    exists last. split.
    + cbn in Hl. rewrite <- Hl. f_equal. lia.
    + rewrite Hrun. unfold w1. rewrite push_push. cbn.
      replace (attempt + 1 + 1)%nat with (S (attempt + 1)) by lia.
      f_equal. unfold push; cbn. f_equal. lia.
Qed.

End Dispatcher.

(** ** Concrete transports and clients used in examples *)

(** A transport that gives the same answer to every call. *)
Definition always (res : Response) : nat -> string -> RequestInit -> exchange :=
  fun _ _ _ => Resolves res.

(** A transport that answers the first call with [first] and every later
    one with [next]. *)
Definition first_then (first next : exchange)
  : nat -> string -> RequestInit -> exchange :=
  fun n _ _ => if (n =? 1)%nat then first else next.

Definition no_json : string -> option json := fun _ => None.

(** A client with the constructor's defaults and an API key. *)
Definition default_client : GuruTvapayClient :=
  {| env := uat; apiKey := Some "key"; clientId := None; clientSecret := None;
     root := DEFAULT_ROOT; timeout := 30000; maxRetries := 3;
     backoffFactor := 0.5%float; token := None |}.

Definition fresh (c : GuruTvapayClient) : world :=
  {| this := c; nfetch := 0; log := [] |}.

Definition get_options : RequestInit :=
  {| method := "GET"; headers := ∅; body := None |}.

(** C5. When the transport answers 500 to every attempt, the dispatcher
    makes exactly [maxRetries + 1] exchanges and then throws the error
    "HTTP 500: <body>" of the last response; the wait before the n-th retry
    is [backoffFactor * 2^(n-1)] seconds, that is the product of doubles
    [backoffFactor * Math.pow(2, n - 1) * 1000] in milliseconds, for
    n = 1 .. maxRetries, a function of the configuration alone. *)
Theorem server_errors_exhaust_retries fetch JSON_parse url options w :
  (forall n, exists res,
      fetch n url options = Resolves res /\ status res = 500%Z) ->
  exists last,
    status last = 500%Z
    /\ _fetchWithRetry fetch JSON_parse url options 0 w
       = (Throw (Error ("HTTP 500: " +:+ text last)),
          push w (maxRetries (this w) + 1)
            (failing_trace (this w) url options (S (nfetch w)) 1
               (maxRetries (this w))))
    /\ fetch_count (failing_trace (this w) url options (S (nfetch w)) 1
                      (maxRetries (this w)))
       = (maxRetries (this w) + 1)%nat
    /\ sleeps (failing_trace (this w) url options (S (nfetch w)) 1
                 (maxRetries (this w)))
       = map (fun n => (backoffFactor (this w) * Math_pow2 (Z.of_nat n - 1) * 1000)%float)
             (seq 1 (maxRetries (this w))).
Proof.
  intros H500.
  assert (Hall : forall n, exists res,
             fetch n url options = Resolves res /\ ok res = false
             /\ (status res =? 429)%Z && truthy_str (retry_after res) = false).
  { intros n. destruct (H500 n) as (res & Hf & Hs). exists res.
    unfold ok. rewrite Hs. auto. }
  destruct (dispatch_all_failing fetch JSON_parse url options Hall
              (maxRetries (this w)) 0%nat w eq_refl) as (last & Hl & Hrun).
  destruct (H500 (S (nfetch w) + maxRetries (this w))%nat) as (res & Hf & Hs).
  assert (res = last) as <- by congruence.
  exists res. split; [exact Hs|]. split.
  - rewrite Hrun. unfold rejection. rewrite Hs. cbn.
    replace (maxRetries (this w) + 1)%nat with (S (maxRetries (this w))) by lia.
    reflexivity.
  - split.
    + rewrite fetch_count_failing_trace. lia.
    + apply sleeps_failing_trace.
Qed.

Lemma server_errors_exhaust_retries_witness :
  exists last,
    status last = 500%Z
    /\ fst (_fetchWithRetry
              (always {| status := 500; retry_after := None; text := "down" |})
              no_json "https://api.gurutvapay.com/x" get_options 0
              (fresh default_client))
       = Throw (Error ("HTTP 500: " +:+ text last)).
Proof.
  destruct (server_errors_exhaust_retries
              (always {| status := 500; retry_after := None; text := "down" |})
              no_json "https://api.gurutvapay.com/x" get_options
              (fresh default_client)) as (last & Hs & Hrun & _).
  - intros n. eexists. split; reflexivity.
  - exists last. split; [exact Hs|]. rewrite Hrun. reflexivity.
Defined.

(** The default client against a transport that always answers 500: four
    exchanges, waits of 0.5 s, 1 s and 2 s between them. *)
Example server_errors_default_client :
  let run := _fetchWithRetry
               (always {| status := 500; retry_after := None; text := "down" |})
               no_json "u" get_options 0 (fresh default_client) in
  fst run = Throw (Error "HTTP 500: down")
  /\ nfetch (snd run) = 4%nat
  /\ sleeps (log (snd run)) = [500; 1000; 2000]%float.
Proof.
  vm_compute. split; [reflexivity|]. split; reflexivity.
Qed.

(** C1 (the code departs from the claim).  A 401 is thrown inside the [try]
    block, so the [catch] meant for network and abort errors receives it and
    retries while the budget lasts: against a transport that always answers
    401 the dispatcher makes [maxRetries + 1] exchanges, with the backoff
    waits between them, before the AuthError surfaces. *)
Theorem auth_error_is_retried fetch JSON_parse url options w :
  (forall n, exists res,
      fetch n url options = Resolves res /\ status res = 401%Z) ->
  exists last,
    _fetchWithRetry fetch JSON_parse url options 0 w
    = (Throw (Error ("AuthError: 401 " +:+ text last)),
       push w (maxRetries (this w) + 1)
         (failing_trace (this w) url options (S (nfetch w)) 1
            (maxRetries (this w))))
    /\ fetch_count (failing_trace (this w) url options (S (nfetch w)) 1
                      (maxRetries (this w)))
       = (maxRetries (this w) + 1)%nat.
Proof.
  intros H401.
  assert (Hall : forall n, exists res,
             fetch n url options = Resolves res /\ ok res = false
             /\ (status res =? 429)%Z && truthy_str (retry_after res) = false).
  { intros n. destruct (H401 n) as (res & Hf & Hs). exists res.
    unfold ok. rewrite Hs. auto. }
  destruct (dispatch_all_failing fetch JSON_parse url options Hall
              (maxRetries (this w)) 0%nat w eq_refl) as (last & Hl & Hrun).
  destruct (H401 (S (nfetch w) + maxRetries (this w))%nat) as (res & Hf & Hs).
  assert (res = last) as <- by congruence.
  exists res. split.
  - rewrite Hrun. unfold rejection. rewrite Hs. cbn.
    replace (maxRetries (this w) + 1)%nat with (S (maxRetries (this w))) by lia.
    reflexivity.
  - rewrite fetch_count_failing_trace. lia.
Qed.

Lemma auth_error_is_retried_witness :
  exists last,
    fst (_fetchWithRetry
           (always {| status := 401; retry_after := None; text := "denied" |})
           no_json "u" get_options 0 (fresh default_client))
    = Throw (Error ("AuthError: 401 " +:+ text last))
    /\ fetch_count
         (log (snd (_fetchWithRetry
                      (always {| status := 401; retry_after := None;
                                 text := "denied" |})
                      no_json "u" get_options 0 (fresh default_client))))
       = 4%nat.
Proof.
  destruct (auth_error_is_retried
              (always {| status := 401; retry_after := None; text := "denied" |})
              no_json "u" get_options (fresh default_client))
    as (last & Hrun & Hcount).
  - intros n. eexists. split; reflexivity.
  - exists last. rewrite Hrun. split; [reflexivity|exact Hcount].
Defined.

(** The default client against a transport that always answers 401: four
    exchanges and three backoff waits before the error reaches the caller. *)
Example auth_error_default_client :
  let run := _fetchWithRetry
               (always {| status := 401; retry_after := None; text := "denied" |})
               no_json "u" get_options 0 (fresh default_client) in
  fst run = Throw (Error "AuthError: 401 denied")
  /\ nfetch (snd run) = 4%nat
  /\ fetch_count (log (snd run)) = 4%nat
  /\ sleeps (log (snd run)) = [500; 1000; 2000]%float.
Proof.
  vm_compute. repeat split; reflexivity.
Qed.

(** ** Rate limiting with a [Retry-After] hint *)

(** [Math.max(a, b)] *)
Definition Math_max (a b : float) : float :=
  if PrimFloat.is_nan a || PrimFloat.is_nan b then nan
  else if PrimFloat.ltb a b then b else a.

(** The wait of the claim: the larger of the parsed [Retry-After] seconds
    and the exponential backoff seconds, in milliseconds; the exponential
    alone when the header does not parse. *)
Definition claimed_wait_429 (c : GuruTvapayClient) (attempt : nat)
    (retryAfter : string) : float :=
  let exponential := (backoffFactor c * Math_pow2 (Z.of_nat attempt - 1))%float in
  match parseInt retryAfter with
  | Some n => (Math_max (Number_of_integer n) exponential * 1000)%float
  | None => (exponential * 1000)%float
  end.

Definition slow_client : GuruTvapayClient :=
  {| env := uat; apiKey := Some "key"; clientId := None; clientSecret := None;
     root := DEFAULT_ROOT; timeout := 30000; maxRetries := 1;
     backoffFactor := 4%float; token := None |}.

Definition limited_then_ok : nat -> string -> RequestInit -> exchange :=
  first_then
    (Resolves {| status := 429; retry_after := Some "2"; text := "slow down" |})
    (Resolves {| status := 200; retry_after := None; text := "{}" |}).

(** C2, as stated, fails: with [Retry-After: 2], [maxRetries = 1] and a
    backoff factor of 4 s the retry succeeds after a single wait of 2 (ms),
    which is neither max(2 s, 4 s) nor at least 2 s. *)
Lemma retry_after_max_counterexample :
  let run := _fetchWithRetry limited_then_ok no_json "u" get_options 0
               (fresh slow_client) in
  fst run = Ok (JObj [("raw", JStr "{}")])
  /\ sleeps (log (snd run)) = [2%float]
  /\ claimed_wait_429 slow_client 1 "2" = 4000%float
  /\ PrimFloat.eqb 2 (claimed_wait_429 slow_client 1 "2") = false
  /\ PrimFloat.ltb 2 (backoffFactor slow_client * Math_pow2 (1 - 1) * 1000) = true
  /\ PrimFloat.leb (2 * 1000) 2 = false.
Proof.
  cbv zeta. repeat split; vm_compute; reflexivity.
Qed.

(** C2 (amended).  A 429 with a non-empty [Retry-After] within the retry
    budget makes the dispatcher wait once and retry.  The wait is the
    exponential [backoffFactor * 2^(attempt-1)] seconds (the product of
    doubles [backoffFactor * Math.pow(2, attempt - 1) * 1000], in
    milliseconds) when [parseInt] of the header, which skips leading white
    space including the no-break space, gives NaN or zero; otherwise it is
    a function [hint] of the parsed value alone, whatever the backoff: no
    maximum is taken. *)
Theorem retry_after_wait_rule :
  exists hint : Z -> float,
  forall fetch JSON_parse url options attempt w res ra,
    fetch (S (nfetch w)) url options = Resolves res ->
    status res = 429%Z -> retry_after res = Some ra -> ra <> "" ->
    (attempt + 1 <= maxRetries (this w))%nat ->
    exists wait,
      _fetchWithRetry fetch JSON_parse url options attempt w
      = _fetchWithRetry fetch JSON_parse url options (attempt + 1)
          (push w 1 (answered (this w) (S (nfetch w)) url options
                     ++ [Sleep wait]))
      /\ (parseInt ra = None \/ parseInt ra = Some 0%Z ->
          wait = (backoffFactor (this w) * Math_pow2 (Z.of_nat (attempt + 1) - 1)
                  * 1000)%float)
      /\ (forall n, parseInt ra = Some n -> n <> 0%Z -> wait = hint n).
Proof.
  exists Number_of_integer.
  intros fetch JSON_parse url options attempt w res ra Hf Hs Hra Hne Hle.
  exists (retry_after_wait ra (backoff_ms (this w) (attempt + 1))).
  split; [by apply (dispatch_hint fetch JSON_parse url options attempt w res ra)|].
  unfold retry_after_wait, backoff_ms. split.
  - intros [-> | ->]; reflexivity.
  - intros n -> Hn. destruct (Z.eqb_spec n 0); [contradiction|reflexivity].
Qed.

Lemma retry_after_wait_rule_witness :
  exists hint : Z -> float,
  exists wait,
    _fetchWithRetry limited_then_ok no_json "u" get_options 0 (fresh slow_client)
    = _fetchWithRetry limited_then_ok no_json "u" get_options 1
        (push (fresh slow_client) 1
           (answered slow_client 1 "u" get_options ++ [Sleep wait]))
    /\ wait = hint 2%Z.
Proof.
  destruct retry_after_wait_rule as [hint H].
  exists hint.
  destruct (H limited_then_ok no_json "u" get_options 0%nat (fresh slow_client)
              {| status := 429; retry_after := Some "2"; text := "slow down" |}
              "2") as (wait & Hrun & _ & Hhint).
  - reflexivity.
  - reflexivity.
  - reflexivity.
  - discriminate.
  - cbn. lia.
  - exists wait. split; [exact Hrun|]. apply Hhint; [reflexivity|discriminate].
Defined.

(** An unparsable [Retry-After] (an HTTP date) falls back to the
    exponential wait. *)
Example retry_after_date_falls_back :
  retry_after_wait "Wed, 21 Oct 2015 07:28:00 GMT" (backoff_ms default_client 2)
  = backoff_ms default_client 2.
Proof. reflexivity. Qed.

(** A [Retry-After] that starts with a no-break space (code unit 160) is
    read like one that starts with a space: the number behind it is the
    wait. *)
Example retry_after_no_break_space :
  parseInt (String (ascii_of_nat 160) "5") = Some 5%Z
  /\ retry_after_wait (String (ascii_of_nat 160) "5") (backoff_ms default_client 1)
     = 5%float
  /\ retry_after_wait " 5" (backoff_ms default_client 1) = 5%float.
Proof. repeat split; vm_compute; reflexivity. Qed.

(** The delays are doubles: a factor of 1.005 (the double
    [0x1.0147ae147ae14p+0]) gives a first wait a little under 1005 ms, and
    the power of two overflows to [Infinity] past the range of doubles. *)
Example backoff_is_a_double_product :
  (0x1.0147ae147ae14p+0 * Math_pow2 (Z.of_nat 1 - 1) * 1000)%float
  = 0x1.f67ffffffffffp+9%float
  /\ PrimFloat.ltb (0x1.0147ae147ae14p+0 * Math_pow2 (Z.of_nat 1 - 1) * 1000) 1005
     = true
  /\ Math_pow2 1023 = 0x1p+1023%float
  /\ Math_pow2 1024 = infinity
  /\ Math_pow2 (-1074) = 0x1p-1074%float
  /\ Math_pow2 (-1075) = 0%float
  /\ Number_of_integer 9007199254740993 = 9007199254740992%float.
Proof. repeat split; vm_compute; reflexivity. Qed.

(** ** The per-attempt timer *)

Definition offline : nat -> string -> RequestInit -> exchange :=
  fun _ _ _ => Rejects (TypeError "fetch failed").

Definition single_shot_client : GuruTvapayClient :=
  {| env := uat; apiKey := Some "key"; clientId := None; clientSecret := None;
     root := DEFAULT_ROOT; timeout := 30000; maxRetries := 0;
     backoffFactor := 0.5%float; token := None |}.

(** Every attempt sets its timer; a timer is cleared only when its exchange
    was answered. *)
Lemma try_block_timers fetch JSON_parse url options attempt w :
  exists evs,
    snd (try_block fetch JSON_parse url options attempt w) = push w 1 evs
    /\ In (SetTimeout (S (nfetch w)) (timeout (this w))) evs
    /\ forall id, In (ClearTimeout id) evs ->
         exists res, fetch id url options = Resolves res.
Proof.
  unfold try_block, bind, get_this, setTimeout_abort, await_fetch, emit, ret, throw.
  cbn. destruct (fetch _ _ _) as [res|e] eqn:Hf; cbn.
  - repeat match goal with
           | |- context [if ?b then _ else _] => destruct b
           end; cbn;
      eexists; unfold push; cbn; rewrite <- ?app_assoc; cbn;
      (split; [reflexivity|]);
      (split; [left; reflexivity|]);
      intros id H; cbn in H;
      repeat (destruct H as [H|H];
              try discriminate H; try (injection H as <-; by exists res));
      destruct H.
  - eexists; unfold push; cbn; rewrite <- ?app_assoc; cbn.
    split; [reflexivity|].
    split; [left; reflexivity|].
    intros id H; cbn in H.
    repeat (destruct H as [H|H]; try discriminate H).
    destruct H.
Qed.

Lemma dispatch_timers fetch JSON_parse url options attempt w :
  exists k evs,
    snd (_fetchWithRetry fetch JSON_parse url options attempt w) = push w k evs
    /\ In (SetTimeout (S (nfetch w)) (timeout (this w))) evs
    /\ forall id, In (ClearTimeout id) evs ->
         exists res, fetch id url options = Resolves res.
Proof.
  funelim (_fetchWithRetry fetch JSON_parse url options attempt w);
    match goal with
    | E : try_block _ _ _ _ ?a ?w = (_, ?w1) |- _ =>
        destruct (try_block_timers fetch JSON_parse url options a w)
          as (evs & Hw & Hset & Hclr);
        rewrite E in Hw; cbn in Hw
    end.
  - exists 1%nat, evs. by split.
  - destruct H as (k & evs' & Hw' & _ & Hclr'). subst w1.
    exists (k + 1)%nat, (evs ++ evs')%list. rewrite Hw', push_push.
    split; [reflexivity|]. split; [apply in_or_app; by left|].
    intros id [Hin|Hin]%in_app_or; auto.
  - destruct H as (k & evs' & Hw' & _ & Hclr'). subst w1.
    exists (k + 1)%nat,
      (evs ++ [Sleep (backoff_ms (this w) (attempt + 1))] ++ evs')%list.
    rewrite Hw'. unfold push; cbn. split.
    + f_equal; [lia|]. by rewrite <- !app_assoc.
    + split; [apply in_or_app; by left|].
      intros id [Hin|[Hs|Hin]]%in_app_or; auto. discriminate Hs.
  - exists 1%nat, evs. by split.
Qed.

(** C8 (the code departs from the claim).  [clearTimeout] follows the
    awaited [fetch] inside [try], so when the exchange of an attempt
    rejects, the timer of that attempt has been set and is never cleared,
    whether the dispatcher then retries or gives up. *)
Theorem timer_not_cleared_on_transport_failure fetch JSON_parse url options
    attempt w e :
  fetch (S (nfetch w)) url options = Rejects e ->
  exists k evs,
    snd (_fetchWithRetry fetch JSON_parse url options attempt w) = push w k evs
    /\ In (SetTimeout (S (nfetch w)) (timeout (this w))) evs
    /\ ~ In (ClearTimeout (S (nfetch w))) evs.
Proof.
  intros Hf.
  destruct (dispatch_timers fetch JSON_parse url options attempt w)
    as (k & evs & Hw & Hset & Hclr).
  exists k, evs. split; [exact Hw|]. split; [exact Hset|].
  intros Hin. destruct (Hclr _ Hin) as (res & Hres). congruence.
Qed.

Lemma timer_not_cleared_on_transport_failure_witness :
  exists k evs,
    snd (_fetchWithRetry offline no_json "u" get_options 0 (fresh single_shot_client))
    = push (fresh single_shot_client) k evs
    /\ In (SetTimeout 1 30000) evs
    /\ ~ In (ClearTimeout 1) evs.
Proof.
  apply (timer_not_cleared_on_transport_failure offline no_json "u" get_options
           0%nat (fresh single_shot_client) (TypeError "fetch failed")).
  reflexivity.
Defined.

(** The single attempt of a client without retries against a transport that
    is down: the timer is set, the exchange fails, nothing else happens. *)
Example offline_single_shot :
  _fetchWithRetry offline no_json "u" get_options 0 (fresh single_shot_client)
  = (Throw (TypeError "fetch failed"),
     push (fresh single_shot_client) 1
       [SetTimeout 1 30000; Fetch "u" get_options]).
Proof. vm_compute. reflexivity. Qed.

(** Whenever the transport answers, whatever the status, the timer of the
    attempt is cleared right after the exchange. *)
Lemma timer_cleared_when_answered fetch JSON_parse url options attempt w res :
  fetch (S (nfetch w)) url options = Resolves res ->
  exists r w' rest,
    try_block fetch JSON_parse url options attempt w = (r, w')
    /\ log w' = (log w ++ answered (this w) (S (nfetch w)) url options ++ rest)%list.
Proof.
  intros Hf.
  unfold try_block, bind, get_this, setTimeout_abort, await_fetch, emit, ret, throw.
  cbn. rewrite Hf. cbn.
  repeat match goal with
         | |- context [if ?b then _ else _] => destruct b
         end; cbn;
    do 3 eexists; (split; [reflexivity|]); cbn;
    rewrite <- ?app_assoc; cbn; reflexivity.
Qed.

(** ** The auth provider *)

(** A static API key is configured when [apiKey] is a non-empty string. *)
Definition configured (k : option string) : Prop :=
  exists s, k = Some s /\ s <> "".

Lemma truthy_str_configured k : truthy_str k = true <-> configured k.
Proof.
  unfold configured. destruct k as [s|]; cbn.
  - destruct (String.eqb_spec s ""); cbn; split.
    + discriminate.
    + intros (s' & [= <-] & Hne). contradiction.
    + intros _. eauto.
    + reflexivity.
  - split; [discriminate|]. intros (s & [=] & _).
Qed.

Lemma Qltb_lt a b : Qltb a b = true <-> (a < b)%Q.
Proof.
  unfold Qltb. rewrite negb_true_iff, <- not_true_iff_false, Qle_bool_iff.
  split; [apply Qnot_le_lt | apply Qlt_not_le].
Qed.

(** C6. [_authHeader] leaves the world as it found it.  With a configured
    API key the header is that key's bearer header, whatever the token;
    without one it is the cached token's bearer header exactly when a token
    exists with more than 10 seconds left before its expiry, and the empty
    header set otherwise. *)
Theorem authHeader_selection (now : Z) (w : world) :
  snd (_authHeader now w) = w
  /\ (forall k, apiKey (this w) = Some k -> k <> "" ->
      fst (_authHeader now w) = Ok {[ "Authorization" := "Bearer " +:+ k ]})
  /\ (~ configured (apiKey (this w)) ->
      (exists t, token (this w) = Some t
                 /\ (10 < expires_at t - inject_Z now / 1000)%Q
                 /\ fst (_authHeader now w)
                    = Ok {[ "Authorization" := "Bearer " +:+ access_token t ]})
      \/ ((forall t, token (this w) = Some t ->
                     ~ (10 < expires_at t - inject_Z now / 1000)%Q)
          /\ fst (_authHeader now w) = Ok ∅)).
Proof.
  unfold _authHeader, bind, get_this, ret. cbn.
  split; [|split].
  - destruct (truthy_str _); [reflexivity|].
    destruct (token _) as [t|]; [|reflexivity].
    destruct (Qltb _ _); reflexivity.
  - intros k Hk Hne. rewrite Hk. cbn.
    destruct (String.eqb_spec k ""); [contradiction|reflexivity].
  - intros Hnc.
    destruct (truthy_str (apiKey (this w))) eqn:E.
    { exfalso. apply Hnc. by apply truthy_str_configured. }
    destruct (token (this w)) as [t|].
    + destruct (Qltb _ _) eqn:El.
      * left. exists t. apply Qltb_lt in El.
        split; [reflexivity|]. split; [lra|reflexivity].
      * right. split; [|reflexivity].
        intros t' [= <-] Hlt. apply not_true_iff_false in El. apply El.
        apply Qltb_lt. lra.
    + right. split; [intros t [=]|reflexivity].
Qed.

Definition token_client (key : option string) (t : option Token) : GuruTvapayClient :=
  {| env := uat; apiKey := key; clientId := Some "id"; clientSecret := Some "secret";
     root := DEFAULT_ROOT; timeout := 30000; maxRetries := 3;
     backoffFactor := 0.5%float; token := t |}.

(** Both a key and a live token: the key wins.  Only an expired token (9
    seconds left): no header. *)
Example authHeader_key_wins :
  fst (_authHeader 1700000000000
         (fresh (token_client (Some "k1")
                   (Some {| access_token := "t1"; expires_at := 1700003600 |}))))
  = Ok {[ "Authorization" := "Bearer k1" ]}.
Proof. reflexivity. Qed.

Example authHeader_live_token :
  fst (_authHeader 1700000000000
         (fresh (token_client None
                   (Some {| access_token := "t1"; expires_at := 1700003600 |}))))
  = Ok {[ "Authorization" := "Bearer t1" ]}.
Proof. reflexivity. Qed.

Example authHeader_stale_token :
  fst (_authHeader 1700000000000
         (fresh (token_client None
                   (Some {| access_token := "t1"; expires_at := 1700000010 |}))))
  = Ok ∅.
Proof. reflexivity. Qed.

Lemma authHeader_selection_witness :
  fst (_authHeader 1700000000000
         (fresh (token_client (Some "k1")
                   (Some {| access_token := "t1"; expires_at := 1700003600 |}))))
  = Ok {[ "Authorization" := "Bearer k1" ]}.
Proof.
  apply (authHeader_selection 1700000000000
           (fresh (token_client (Some "k1")
                     (Some {| access_token := "t1"; expires_at := 1700003600 |})))).
  - reflexivity.
  - discriminate.
Defined.

(** ** What every dispatch leaves behind *)

(** [evs] holds an exchange, and every exchange in it is for [url] and
    [options]. *)
Definition exchanges_of (url : string) (options : RequestInit)
    (evs : list event) : Prop :=
  In (Fetch url options) evs
  /\ forall u i, In (Fetch u i) evs -> u = url /\ i = options.

Lemma exchanges_of_app_l url options a b :
  exchanges_of url options a ->
  (forall u i, In (Fetch u i) b -> u = url /\ i = options) ->
  exchanges_of url options (a ++ b)%list.
Proof.
  intros [Hin Hall] Hb. split.
  - apply in_or_app. by left.
  - intros u i [H|H]%in_app_or; auto.
Qed.

Lemma try_block_world fetch JSON_parse url options attempt w :
  exists evs,
    snd (try_block fetch JSON_parse url options attempt w) = push w 1 evs
    /\ exchanges_of url options evs.
Proof.
  unfold try_block, bind, get_this, setTimeout_abort, await_fetch, emit, ret, throw.
  cbn. destruct (fetch _ _ _) as [res|e]; cbn.
  - repeat match goal with
           | |- context [if ?b then _ else _] => destruct b
           end; cbn;
      eexists; unfold push; cbn; rewrite <- ?app_assoc; cbn;
      (split; [reflexivity|]);
      (split; [right; left; reflexivity|]);
      intros u i H; cbn in H;
      repeat (destruct H as [H|H]; try discriminate H; try (injection H as <- <-; by split));
      destruct H.
  - eexists; unfold push; cbn; rewrite <- ?app_assoc; cbn.
    split; [reflexivity|].
    split; [right; left; reflexivity|].
    intros u i H; cbn in H.
    repeat (destruct H as [H|H]; try discriminate H; try (injection H as <- <-; by split)).
    destruct H.
Qed.

Lemma dispatch_world fetch JSON_parse url options attempt w :
  exists k evs,
    snd (_fetchWithRetry fetch JSON_parse url options attempt w) = push w k evs
    /\ exchanges_of url options evs.
Proof.
  funelim (_fetchWithRetry fetch JSON_parse url options attempt w);
    match goal with
    | E : try_block _ _ _ _ ?a ?w = (_, ?w1) |- _ =>
        destruct (try_block_world fetch JSON_parse url options a w)
          as (evs & Hw & Hev);
        rewrite E in Hw; cbn in Hw
    end.
  - exists 1%nat, evs. by split.
  - destruct H as (k & evs' & Hw' & Hev'). subst w1.
    exists (k + 1)%nat, (evs ++ evs')%list. rewrite Hw', push_push.
    split; [reflexivity|]. apply exchanges_of_app_l; [assumption|apply Hev'].
  - destruct H as (k & evs' & Hw' & Hev'). subst w1.
    exists (k + 1)%nat,
      (evs ++ [Sleep (backoff_ms (this w) (attempt + 1))] ++ evs')%list.
    rewrite Hw'. unfold push; cbn. split.
    + f_equal; [lia|]. by rewrite <- !app_assoc.
    + apply exchanges_of_app_l; [assumption|].
      intros u i [Hs|Hin]; [discriminate Hs|]. by apply Hev'.
  - exists 1%nat, evs. by split.
Qed.

Lemma dispatch_this fetch JSON_parse url options attempt w :
  this (snd (_fetchWithRetry fetch JSON_parse url options attempt w)) = this w.
Proof.
  destruct (dispatch_world fetch JSON_parse url options attempt w)
    as (k & evs & -> & _).
  reflexivity.
Qed.

(** ** Login *)

Section Login.

Variable fetch : nat -> string -> RequestInit -> exchange.
Variable JSON_parse : string -> option json.
Variable URLSearchParams_toString : list (string * string) -> string.

(** The request [loginWithPassword] dispatches. *)
Definition login_url (c : GuruTvapayClient) : string :=
  root c +:+ ENV_PREFIXES (env c) +:+ "/login".

Definition login_init (c : GuruTvapayClient) (username password : string)
    (grant_type : option string) : RequestInit :=
  {| method := "POST";
     headers := {[ "Content-Type" := "application/x-www-form-urlencoded" ]};
     body := Some (URLSearchParams_toString
                     [ ("grant_type", default "password" grant_type);
                       ("username", username); ("password", password);
                       ("client_id", default "" (clientId c));
                       ("client_secret", default "" (clientSecret c)) ]) |}.

(** The world after [this.token = t]. *)
Definition store_token (w : world) (t : Token) : world :=
  {| this := with_token (this w) t; nfetch := nfetch w; log := log w |}.

Local Abbreviation login :=
  (loginWithPassword fetch JSON_parse URLSearchParams_toString).
Local Abbreviation sent_by w username password grant_type :=
  (_fetchWithRetry fetch JSON_parse (login_url (this w))
     (login_init (this w) username password grant_type) 0 w).

(** Only an object has a truthy property. *)
Lemma truthy_prop_truthy k res :
  truthy_opt (get_prop k res) = true -> truthy res = true.
Proof. destruct res; cbn; try discriminate; reflexivity. Qed.

(** The login of a client with credentials, by the outcome of its dispatch. *)
Lemma login_configured now username password grant_type w :
  configured (clientId (this w)) -> configured (clientSecret (this w)) ->
  login now username password grant_type w
  = match sent_by w username password grant_type with
    | (Throw e, w1) => Some (Throw e, w1)
    | (Ok res, w1) =>
        if truthy_opt (get_prop "access_token" res) then
          match get_prop "access_token" res, login_expires_at now res with
          | Some (JStr tok), Some e =>
              Some (Ok {| access_token := tok; expires_at := e |},
                    store_token w1 {| access_token := tok; expires_at := e |})
          | _, _ => None
          end
        else Some (Throw (Error "Login failed"), w1)
    end.
Proof.
  intros H1%truthy_str_configured H2%truthy_str_configured.
  unfold loginWithPassword.
  fold (login_url (this w)). fold (login_init (this w) username password grant_type).
  rewrite H1, H2. cbn [negb orb].
  destruct (_fetchWithRetry _ _ _ _ _ _) as [[res|e] w1]; [|reflexivity].
  destruct (truthy_opt (get_prop "access_token" res)) eqn:E.
  - rewrite (truthy_prop_truthy _ _ E). cbn [negb orb].
    reflexivity.
  - rewrite orb_true_r. reflexivity.
Qed.

(** C7 (amended).  Without a client id or a client secret the login throws
    "clientId and clientSecret required" before anything else happens.
    Otherwise it dispatches once; a failed dispatch is passed on, and a
    response without a truthy [access_token] (absent, [null], [false], 0 or
    the empty string) throws "Login failed": on each of these paths the
    client, its token included, is as before.  Any other [access_token] is
    accepted, whatever its type: the login does not throw.  A response with
    a non-empty string as access token stores and returns a new token,
    replacing the old one; its expiry is the response's [expires_at] when
    that is a non-zero number, and, when [expires_at] is absent or falsy,
    the current time in whole seconds plus the number [expires_in], or plus
    0 when that is absent or falsy. *)
Theorem loginWithPassword_contract (now : Z) (username password : string)
    (grant_type : option string) (w : world) :
  let login := loginWithPassword fetch JSON_parse URLSearchParams_toString
                 now username password grant_type w in
  let sent := _fetchWithRetry fetch JSON_parse (login_url (this w))
                (login_init (this w) username password grant_type) 0 w in
  let seconds := inject_Z (Qfloor (inject_Z now / 1000)) in
  (~ (configured (clientId (this w)) /\ configured (clientSecret (this w))) ->
   login = Some (Throw (Error "clientId and clientSecret required"), w))
  /\ (configured (clientId (this w)) /\ configured (clientSecret (this w)) ->
      (forall e, fst sent = Throw e ->
         login = Some (Throw e, snd sent) /\ this (snd sent) = this w)
      /\ (forall res, fst sent = Ok res ->
            truthy_opt (get_prop "access_token" res) = false ->
            login = Some (Throw (Error "Login failed"), snd sent)
            /\ this (snd sent) = this w)
      /\ (forall res, fst sent = Ok res ->
            truthy_opt (get_prop "access_token" res) = true ->
            forall e w', login <> Some (Throw e, w'))
      /\ (forall res tok, fst sent = Ok res ->
            get_prop "access_token" res = Some (JStr tok) -> tok <> "" ->
            (forall e, get_prop "expires_at" res = Some (JNum e) -> ~ (e == 0)%Q ->
               exists t,
                 login = Some (Ok t, store_token (snd sent) t)
                 /\ token (this (store_token (snd sent) t)) = Some t
                 /\ access_token t = tok
                 /\ expires_at t = e)
            /\ (truthy_opt (get_prop "expires_at" res) = false ->
                forall life,
                  get_prop "expires_in" res = Some (JNum life)
                  \/ (truthy_opt (get_prop "expires_in" res) = false /\ life = 0%Q) ->
                  exists t,
                    login = Some (Ok t, store_token (snd sent) t)
                    /\ token (this (store_token (snd sent) t)) = Some t
                    /\ access_token t = tok
                    /\ (expires_at t == seconds + life)%Q))).
Proof.
  cbv zeta. split.
  - intros Hnc. unfold loginWithPassword.
    destruct (truthy_str (clientId (this w))) eqn:E1; cbn; [|reflexivity].
    destruct (truthy_str (clientSecret (this w))) eqn:E2; cbn; [|reflexivity].
    exfalso. apply Hnc. split; by apply truthy_str_configured.
  - intros [H1 H2].
    rewrite (login_configured now username password grant_type w H1 H2).
    pose proof (dispatch_this fetch JSON_parse (login_url (this w))
                  (login_init (this w) username password grant_type) 0 w) as Hthis.
    destruct (_fetchWithRetry _ _ _ _ _ _) as [[res|e] w1]; cbn [fst snd] in *.
    + split; [intros e [=]|]. split; [|split].
      * intros res' [= <-] Hna. rewrite Hna. by split.
      * intros res' [= <-] Ha e w'. rewrite Ha.
        destruct (get_prop "access_token" res) as [[]|]; try discriminate.
        destruct (login_expires_at now res); discriminate.
      * intros res' tok [= <-] Htok Hne.
        assert (truthy_opt (get_prop "access_token" res) = true) as Ha.
        { rewrite Htok. cbn. by destruct (String.eqb_spec tok ""). }
        rewrite Ha, Htok. unfold login_expires_at. split.
        -- intros e He Hnz. rewrite He. cbn [truthy_opt truthy].
           destruct (Qeq_bool e 0) eqn:Ee.
           { apply Qeq_bool_iff in Ee. contradiction. }
           cbn [negb]. eexists. split; [reflexivity|].
           split; [reflexivity|]. by split.
        -- intros Hat life Hin. rewrite Hat.
           destruct Hin as [Hin | [Hin ->]].
           ++ rewrite Hin. cbn [truthy_opt truthy].
              destruct (Qeq_bool life 0) eqn:El; cbn [negb].
              ** apply Qeq_bool_iff in El.
                 eexists. split; [reflexivity|]. split; [reflexivity|].
                 split; [reflexivity|]. cbn [expires_at]. by rewrite El.
              ** eexists. split; [reflexivity|]. split; [reflexivity|].
                 split; reflexivity.
           ++ rewrite Hin.
              eexists. split; [reflexivity|]. split; [reflexivity|].
              split; reflexivity.
    + split.
      * intros e' [= <-]. by split.
      * split; [intros res [=]|]. split; [intros res [=]|intros res tok [=]].
Qed.

End Login.

Definition oauth_client : GuruTvapayClient :=
  {| env := uat; apiKey := None; clientId := Some "id"; clientSecret := Some "secret";
     root := DEFAULT_ROOT; timeout := 30000; maxRetries := 3;
     backoffFactor := 0.5%float; token := None |}.

(** A decoder that reads every body as the value [v]. *)
Definition decode_as (v : json) : string -> option json := fun _ => Some v.

Definition form_encode : list (string * string) -> string :=
  fun l => String.concat "&" (map (fun p => fst p +:+ "=" +:+ snd p) l).

Definition answers_200 : nat -> string -> RequestInit -> exchange :=
  always {| status := 200; retry_after := None; text := "body" |}.

(** A login response whose [expires_at] is present with the value 0. *)
Definition zero_expiry_response : json :=
  JObj [ ("access_token", JStr "tok"); ("expires_at", JNum 0);
         ("expires_in", JNum 3600) ].

(** C7, as stated, fails: an [expires_at] that is present but 0 is not
    stored; the expiry becomes the current time plus [expires_in]. *)
Lemma login_zero_expires_at_counterexample :
  get_prop "expires_at" zero_expiry_response = Some (JNum 0)
  /\ exists t w',
       loginWithPassword answers_200 (decode_as zero_expiry_response)
         form_encode 1700000000000 "user" "pw" None (fresh oauth_client)
       = Some (Ok t, w')
       /\ token (this w') = Some t
       /\ (expires_at t == 1700003600)%Q
       /\ ~ (expires_at t == 0)%Q.
Proof.
  split; [reflexivity|].
  eexists _, _. split; [vm_compute; reflexivity|].
  split; [reflexivity|].
  split; [reflexivity|]. intros H. discriminate H.
Qed.

Definition token_response : json :=
  JObj [ ("access_token", JStr "tok"); ("expires_in", JNum 3600) ].

Lemma loginWithPassword_contract_witness :
  loginWithPassword answers_200 (decode_as token_response) form_encode
    1700000000000 "user" "pw" None
    (fresh {| env := uat; apiKey := None; clientId := Some "id";
              clientSecret := None; root := DEFAULT_ROOT; timeout := 30000;
              maxRetries := 3; backoffFactor := 0.5%float; token := None |})
  = Some (Throw (Error "clientId and clientSecret required"),
          fresh {| env := uat; apiKey := None; clientId := Some "id";
                   clientSecret := None; root := DEFAULT_ROOT; timeout := 30000;
                   maxRetries := 3; backoffFactor := 0.5%float; token := None |}).
Proof.
  apply (loginWithPassword_contract answers_200 (decode_as token_response)
           form_encode 1700000000000 "user" "pw" None).
  intros [_ (s & Hs & _)]. discriminate Hs.
Defined.

(** A successful login: the token expires one hour after the login. *)
Example login_stores_token :
  exists t w',
    loginWithPassword answers_200 (decode_as token_response)
      form_encode 1700000000000 "user" "pw" None (fresh oauth_client)
    = Some (Ok t, w')
    /\ token (this w') = Some t
    /\ access_token t = "tok"
    /\ (expires_at t == 1700003600)%Q.
Proof.
  eexists _, _. split; [vm_compute; reflexivity|].
  split; [reflexivity|]. split; reflexivity.
Qed.

(** The test of line 123 looks at truthiness only.  A numeric
    [access_token] passes it, and so does one next to a lifetime written as
    a string: neither login throws "Login failed"; the object the code then
    stores is not a typed token.  An [access_token] of 0 or [null] is
    refused. *)
Example login_access_token_truthiness :
  loginWithPassword answers_200
    (decode_as (JObj [ ("access_token", JNum 12345); ("expires_in", JNum 3600) ]))
    form_encode 1700000000000 "user" "pw" None (fresh oauth_client)
  = None
  /\ loginWithPassword answers_200
       (decode_as (JObj [ ("access_token", JStr "tok"); ("expires_in", JStr "3600") ]))
       form_encode 1700000000000 "user" "pw" None (fresh oauth_client)
     = None
  /\ fst <$> loginWithPassword answers_200
               (decode_as (JObj [ ("access_token", JNum 0) ]))
               form_encode 1700000000000 "user" "pw" None (fresh oauth_client)
     = Some (Throw (Error "Login failed"))
  /\ fst <$> loginWithPassword answers_200
               (decode_as (JObj [ ("access_token", JNull) ]))
               form_encode 1700000000000 "user" "pw" None (fresh oauth_client)
     = Some (Throw (Error "Login failed")).
Proof. repeat split; vm_compute; reflexivity. Qed.

(** ** Header merging in [createPayment] and [request] *)

Lemma spread_override (a b : gmap string string) k v :
  b !! k = Some v -> spread a b !! k = Some v.
Proof. intros H. unfold spread. by apply lookup_union_Some_l. Qed.

Lemma authHeader_run {A} now (f : gmap string string -> M A) w :
  bind (_authHeader now) f w
  = f (match fst (_authHeader now w) with Ok h => h | Throw _ => ∅ end) w.
Proof.
  unfold bind, _authHeader, get_this, ret. cbn.
  destruct (truthy_str _); [reflexivity|].
  destruct (token _) as [t|]; [|reflexivity].
  destruct (Qltb _ _); reflexivity.
Qed.

Lemma spread_lookup (a b : gmap string string) k :
  spread a b !! k = match b !! k with Some v => Some v | None => a !! k end.
Proof.
  unfold spread. rewrite lookup_union.
  destruct (b !! k), (a !! k); reflexivity.
Qed.

(** The content type [request] gives the body it sends (lines 162-168). *)
Definition body_content_type (o : RequestOptions) : gmap string string :=
  if truthy (default JNull (opt_jsonBody o)) then
    {[ "Content-Type" := "application/json" ]}
  else if truthy_data (opt_data o) then
    {[ "Content-Type" := "application/x-www-form-urlencoded" ]}
  else ∅.

(** C10. In [createPayment] and in [request] the caller's headers are
    merged after the automatic ones.  With [auth] the header of the auth
    provider, every call makes at least one exchange, and in every exchange
    of the call each header name carries the caller's value when the caller
    supplies one, whatever the automatic value; otherwise the value of
    [auth]; otherwise the content type of the body encoding (JSON in
    [createPayment]). *)
Theorem caller_headers_override fetch JSON_parse JSON_stringify
    URLSearchParams_toString (now : Z) (w : world) :
  exists auth : gmap string string,
    fst (_authHeader now w) = Ok auth
    /\ (forall (a : PaymentArgs) (extraHeaders : gmap string string),
          exists n evs,
            snd (createPayment fetch JSON_parse JSON_stringify now a extraHeaders w)
            = push w n evs
            /\ (exists url init, In (Fetch url init) evs)
            /\ forall url init, In (Fetch url init) evs ->
               forall k,
                 headers init !! k
                 = match extraHeaders !! k with
                   | Some v => Some v
                   | None =>
                       match auth !! k with
                       | Some v => Some v
                       | None =>
                           ({[ "Content-Type" := "application/json" ]}
                              : gmap string string) !! k
                       end
                   end)
    /\ (forall (method pathOrUrl : string) (o : RequestOptions),
          exists n evs,
            snd (request fetch JSON_parse JSON_stringify URLSearchParams_toString
                   now method pathOrUrl o w)
            = push w n evs
            /\ (exists url init, In (Fetch url init) evs)
            /\ forall url init, In (Fetch url init) evs ->
               forall k,
                 headers init !! k
                 = match opt_headers o !! k with
                   | Some v => Some v
                   | None =>
                       match auth !! k with
                       | Some v => Some v
                       | None => body_content_type o !! k
                       end
                   end).
Proof.
  assert (exists auth, fst (_authHeader now w) = Ok auth) as (auth & Ha).
  { unfold _authHeader, bind, get_this, ret. cbn.
    destruct (truthy_str _); [by eexists|].
    destruct (token _) as [t|]; [|by eexists].
    destruct (Qltb _ _); by eexists. }
  exists auth. split; [exact Ha|]. split.
  - intros a extraHeaders.
    unfold createPayment. unfold bind at 1. unfold get_this at 1. cbn beta iota.
    rewrite authHeader_run, Ha.
    match goal with
    | |- context [_fetchWithRetry _ _ ?u ?i 0 w] =>
        destruct (dispatch_world fetch JSON_parse u i 0 w)
          as (n & evs & Hw & Hin & Hall);
        exists n, evs; split; [exact Hw|]; split; [by exists u, i|];
        intros url init Hf k; destruct (Hall url init Hf) as [_ ->]
    end.
    cbn [headers]. by rewrite !spread_lookup.
  - intros method pathOrUrl o.
    unfold request. unfold bind at 1. unfold get_this at 1. cbn beta iota.
    rewrite authHeader_run, Ha.
    match goal with
    | |- context [_fetchWithRetry _ _ ?u ?i 0 w] =>
        destruct (dispatch_world fetch JSON_parse u i 0 w)
          as (n & evs & Hw & Hin & Hall);
        exists n, evs; split; [exact Hw|]; split; [by exists u, i|];
        intros url init Hf k; destruct (Hall url init Hf) as [_ ->]
    end.
    unfold body_content_type.
    destruct (truthy _); [|destruct (truthy_data _)];
      cbn [headers]; rewrite !spread_lookup, ?lookup_empty;
      by destruct (opt_headers o !! k), (auth !! k).
Qed.

Definition no_payment_args : PaymentArgs :=
  {| amount := Some (JNum 100); merchantOrderId := Some (JStr "ORD1");
     channel := None; purpose := None; customer := None;
     pay_expires_in := None; metadata := None |}.

Definition stringify_stub : json -> string := fun _ => "json".

Lemma caller_headers_override_witness :
  exists auth : gmap string string,
    fst (_authHeader 1700000000000 (fresh default_client)) = Ok auth
    /\ auth !! "Authorization" = Some "Bearer key"
    /\ exists n evs,
         snd (createPayment answers_200 no_json stringify_stub 1700000000000
                no_payment_args {[ "Authorization" := "Basic abc" ]}
                (fresh default_client))
         = push (fresh default_client) n evs
         /\ (exists url init, In (Fetch url init) evs)
         /\ forall url init, In (Fetch url init) evs ->
              headers init !! "Authorization" = Some "Basic abc"
              /\ headers init !! "Content-Type" = Some "application/json".
Proof.
  destruct (caller_headers_override answers_200 no_json stringify_stub form_encode
              1700000000000 (fresh default_client)) as (auth & Ha & Hpay & _).
  exists auth. split; [exact Ha|].
  assert (auth = {[ "Authorization" := "Bearer key" ]}) as ->.
  { change (fst (_authHeader 1700000000000 (fresh default_client)))
      with (Ok (A:=gmap string string) {[ "Authorization" := "Bearer key" ]}) in Ha.
    by injection Ha as <-. }
  split; [reflexivity|].
  destruct (Hpay no_payment_args {[ "Authorization" := "Basic abc" ]})
    as (n & evs & Hw & Hex & Hall).
  exists n, evs. split; [exact Hw|]. split; [exact Hex|].
  intros url init Hf. rewrite !(Hall url init Hf). split; reflexivity.
Defined.

(** A [createPayment] with an API key and no caller headers sends the
    key's bearer header and the JSON content type. *)
Example createPayment_default_headers :
  log (snd (createPayment answers_200 no_json stringify_stub 1700000000000
              no_payment_args ∅ (fresh default_client)))
  = answered default_client 1 "https://api.gurutvapay.com/initiate-payment"
      {| method := "POST";
         headers := {[ "Content-Type" := "application/json";
                       "Authorization" := "Bearer key" ]};
         body := Some "json" |}.
Proof. vm_compute. reflexivity. Qed.

(** ** The webhook verifier *)

Lemma string_ind2 (P : string -> Prop) :
  P "" -> (forall a, P (String a "")) ->
  (forall a b s, P s -> P (String a (String b s))) ->
  forall s, P s.
Proof.
  intros H0 H1 H2.
  assert (forall s, P s /\ forall a, P (String a s)) as H.
  { induction s as [|b s [IH1 IH2]]; split; auto. }
  intros s. apply H.
Qed.

Lemma unhex_high c : unhex (hex_digit (N_of_ascii c / 16)) = Some (N_of_ascii c / 16)%N.
Proof. destruct c as [[] [] [] [] [] [] [] []]; reflexivity. Qed.

Lemma unhex_low c :
  unhex (hex_digit (N_of_ascii c mod 16)) = Some (N_of_ascii c mod 16)%N.
Proof. destruct c as [[] [] [] [] [] [] [] []]; reflexivity. Qed.

Lemma nibbles_byte c :
  ascii_of_N (16 * (N_of_ascii c / 16) + N_of_ascii c mod 16) = c.
Proof. destruct c as [[] [] [] [] [] [] [] []]; reflexivity. Qed.

(** Decoding undoes encoding. *)
Lemma Buffer_from_hex_encode b : Buffer_from_hex (hex_encode b) = b.
Proof.
  induction b as [|c b IH]; [reflexivity|].
  cbn [hex_encode Buffer_from_hex].
  by rewrite unhex_high, unhex_low, nibbles_byte, IH.
Qed.

Lemma hex_encode_not_prefixed b : String.prefix "sha256=" (hex_encode b) = false.
Proof.
  destruct b as [|c b]; [reflexivity|].
  cbn [hex_encode].
  destruct c as [[] [] [] [] [] [] [] []]; reflexivity.
Qed.

Lemma hex_encode_nonempty b : b <> [] -> hex_encode b <> "".
Proof. destruct b; [contradiction|discriminate]. Qed.

Lemma split_eq_cons s : exists p ps, split_eq s = p :: ps.
Proof.
  induction s as [|c s (p & ps & IH)]; cbn; [eauto|].
  destruct (Ascii.eqb c "="); [eauto|]. rewrite IH. eauto.
Qed.

Lemma first_piece_String a s :
  hd "" (split_eq (String a s))
  = if Ascii.eqb a "=" then "" else String a (hd "" (split_eq s)).
Proof.
  cbn. destruct (Ascii.eqb a "="); [reflexivity|].
  destruct (split_eq_cons s) as (p & ps & ->). reflexivity.
Qed.

Lemma unhex_eq_sign a : Ascii.eqb a "=" = true -> unhex a = None.
Proof. intros ->%Ascii.eqb_eq. reflexivity. Qed.

(** The decoder stops at the first [=], so it reads the same bytes from a
    string and from the part of it before the first [=]. *)
Lemma Buffer_from_hex_first_piece s :
  Buffer_from_hex (hd "" (split_eq s)) = Buffer_from_hex s.
Proof.
  induction s as [|a|a b s IH] using string_ind2.
  - reflexivity.
  - rewrite first_piece_String. by destruct (Ascii.eqb a "=").
  - rewrite !first_piece_String.
    destruct (Ascii.eqb a "=") eqn:Ea.
    { cbn. by rewrite (unhex_eq_sign a Ea). }
    destruct (Ascii.eqb b "=") eqn:Eb.
    { cbn. rewrite (unhex_eq_sign b Eb). by destruct (unhex a). }
    cbn [Buffer_from_hex]. by rewrite IH.
Qed.

Lemma signature_hex_prefixed s :
  signature_hex ("sha256=" +:+ s) = hd "" (split_eq s).
Proof.
  unfold signature_hex.
  change ("sha256=" +:+ s)
    with (String "s" (String "h" (String "a" (String "2" (String "5"
           (String "6" (String "=" s))))))).
  destruct (split_eq_cons s) as (p & ps & Hs).
  cbn. rewrite Hs.
  assert (String.prefix "" s = true) as -> by by destruct s.
  reflexivity.
Qed.

(** *** The digest is 32 bytes long *)

Lemma length_round st kw : length (Sha256.round st kw) = length st.
Proof.
  unfold Sha256.round.
  repeat (destruct st as [|? st]; try reflexivity).
Qed.

Lemma length_fold_round l st :
  length (fold_left Sha256.round l st) = length st.
Proof.
  revert st; induction l as [|kw l IH]; intros st; cbn; [reflexivity|].
  by rewrite IH, length_round.
Qed.

Lemma length_compress h block : length (Sha256.compress h block) = length h.
Proof.
  unfold Sha256.compress.
  rewrite length_map, length_combine, length_fold_round. lia.
Qed.

Lemma length_blocks n h b : length (Sha256.blocks n h b) = length h.
Proof.
  revert h b; induction n as [|n IH]; intros h b; cbn; [reflexivity|].
  by rewrite IH, length_compress.
Qed.

Lemma length_sha256 msg : length (Sha256.sha256 msg) = 32%nat.
Proof.
  unfold Sha256.sha256.
  assert (forall l : list Z,
             length (flat_map (Sha256.be_bytes 4) l) = (4 * length l)%nat) as Hl.
  { induction l as [|x l IH]; [reflexivity|].
    cbn [flat_map]. rewrite length_app, IH. cbn. lia. }
  rewrite Hl, length_blocks. reflexivity.
Qed.

Lemma length_hmac key msg : length (Sha256.hmac key msg) = 32%nat.
Proof. apply length_sha256. Qed.

(** *** What the verifier computes *)

(** The verifier accepts a header exactly when it is non-empty and the
    bytes decoded from its hex part are the digest. *)
Lemma verifyWebhook_Some payload h secret :
  verifyWebhook payload (Some h) secret
  = Ok (bool_decide
          (h <> ""
           /\ Buffer_from_hex (signature_hex h)
              = Sha256.hmac (Buffer_from_string secret) payload)).
Proof.
  unfold verifyWebhook. cbn [truthy_str default].
  destruct (String.eqb_spec h "") as [->|Hne]; cbn [negb].
  { reflexivity. }
  change (id h) with h.
  rewrite Buffer_from_hex_encode.
  destruct (Nat.eqb_spec (length (Buffer_from_hex (signature_hex h)))
              (length (Sha256.hmac (Buffer_from_string secret) payload)))
    as [Hl|Hl]; cbn [negb].
  - unfold timingSafeEqual. rewrite Hl, Nat.eqb_refl. cbn [negb].
    f_equal. apply bool_decide_ext. tauto.
  - f_equal. symmetry. apply bool_decide_eq_false. intros [_ H].
    apply Hl. by rewrite H.
Qed.

Lemma verifyWebhook_true payload h secret :
  verifyWebhook payload (Some h) secret = Ok true
  <-> h <> ""
      /\ Buffer_from_hex (signature_hex h)
         = Sha256.hmac (Buffer_from_string secret) payload.
Proof.
  rewrite verifyWebhook_Some. split.
  - intros [= H]. by apply bool_decide_eq_true in H.
  - intros H. f_equal. by apply bool_decide_eq_true.
Qed.

Lemma verifyWebhook_false payload h secret :
  Buffer_from_hex (signature_hex h)
  <> Sha256.hmac (Buffer_from_string secret) payload ->
  verifyWebhook payload (Some h) secret = Ok false.
Proof.
  intros H. rewrite verifyWebhook_Some. f_equal.
  apply bool_decide_eq_false. intros [_ H']. by apply H.
Qed.

(** *** Tampering *)

(** Bit [j] of a byte flipped. *)
Definition flip_bit_ascii (j : nat) (c : ascii) : ascii :=
  ascii_of_N (N.lxor (N_of_ascii c) (2 ^ N.of_nat j)).

(** Bit [j] of byte [i] of a buffer flipped. *)
Definition flip_bit (i j : nat) (b : Buffer) : Buffer :=
  match b !! i with
  | Some c => <[i := flip_bit_ascii j c]> b
  | None => b
  end.

(** Bit [j] of character [i] of a string flipped. *)
Fixpoint flip_string_bit (i j : nat) (s : string) : string :=
  match s, i with
  | String c rest, O => String (flip_bit_ascii j c) rest
  | String c rest, S i' => String c (flip_string_bit i' j rest)
  | EmptyString, _ => EmptyString
  end.

Lemma flip_bit_ascii_neq j c : (j < 8)%nat -> flip_bit_ascii j c <> c.
Proof.
  intros Hj.
  do 8 (destruct j as [|j];
        [destruct c as [[] [] [] [] [] [] [] []]; discriminate|]).
  lia.
Qed.

Lemma flip_bit_neq i j (b : Buffer) :
  (i < length b)%nat -> (j < 8)%nat -> flip_bit i j b <> b.
Proof.
  intros Hi Hj Heq. unfold flip_bit in Heq.
  destruct (b !! i) as [c|] eqn:Hc.
  - assert (<[i := flip_bit_ascii j c]> b !! i = Some (flip_bit_ascii j c)) as Hn
      by by apply list_lookup_insert_eq.
    rewrite Heq, Hc in Hn. injection Hn as Hn.
    by apply (flip_bit_ascii_neq j c).
  - apply lookup_ge_None in Hc. lia.
Qed.

(** X21. The round trip of a signature.  The hex digest of the payload
    under the secret is accepted, with or without the [sha256=] prefix, and
    a signature whose decoded bytes are the digest with any single bit
    flipped is refused. *)
Theorem webhook_digest_roundtrip (payload : Buffer) (secret : string) :
  let mac := Sha256.hmac (Buffer_from_string secret) payload in
  verifyWebhook payload (Some (hex_encode mac)) secret = Ok true
  /\ verifyWebhook payload (Some ("sha256=" +:+ hex_encode mac)) secret = Ok true
  /\ (forall h i j, (i < length mac)%nat -> (j < 8)%nat ->
        Buffer_from_hex (signature_hex h) = flip_bit i j mac ->
        verifyWebhook payload (Some h) secret = Ok false).
Proof.
  cbv zeta.
  set (mac := Sha256.hmac (Buffer_from_string secret) payload).
  assert (Hne : hex_encode mac <> "").
  { apply hex_encode_nonempty. intros H.
    pose proof (length_hmac (Buffer_from_string secret) payload) as Hl.
    fold mac in Hl. rewrite H in Hl. discriminate Hl. }
  assert (Hbare : signature_hex (hex_encode mac) = hex_encode mac).
  { unfold signature_hex. by rewrite hex_encode_not_prefixed. }
  split; [|split].
  - apply verifyWebhook_true. split; [exact Hne|].
    by rewrite Hbare, Buffer_from_hex_encode.
  - apply verifyWebhook_true. split; [discriminate|].
    by rewrite signature_hex_prefixed, Buffer_from_hex_first_piece,
         Buffer_from_hex_encode.
  - intros h i j Hi Hj Hflip. apply verifyWebhook_false.
    rewrite Hflip. by apply flip_bit_neq.
Qed.

Definition fox : Buffer :=
  Buffer_from_string "The quick brown fox jumps over the lazy dog".

(** Known answers for the digest functions. *)
Example sha256_abc :
  hex_encode (Sha256.sha256 (Buffer_from_string "abc"))
  = "ba7816bf8f01cfea414140de5dae2223b00361a396177a9cb410ff61f20015ad".
Proof. vm_compute. reflexivity. Qed.

Example hmac_sha256_fox :
  hex_encode (Sha256.hmac (Buffer_from_string "key") fox)
  = "f7bc83f430538424b13298e6aa6fb143ef4d59a14946175997479dbc2d1a3cd8".
Proof. vm_compute. reflexivity. Qed.

Example hmac_sha256_rfc4231_case2 :
  hex_encode (Sha256.hmac (Buffer_from_string "Jefe")
                (Buffer_from_string "what do ya want for nothing?"))
  = "5bdcc146bf60754e6a042426089575c75a003f089d2739839dec58b964ec3843".
Proof. vm_compute. reflexivity. Qed.

(** C3.  The signature half of the claim fails: flipping bit 5 of the
    first character of the signature turns [f] into [F]; the signature text
    has changed by one bit, and it is still accepted.  The payload half,
    that no payload one bit away has the same HMAC-SHA256, is a property of
    the hash function: it is neither proved nor refuted here. *)
Lemma signature_case_flip_counterexample :
  let signature := hex_encode (Sha256.hmac (Buffer_from_string "key") fox) in
  let flipped := flip_string_bit 0 5 signature in
  flipped = "F7bc83f430538424b13298e6aa6fb143ef4d59a14946175997479dbc2d1a3cd8"
  /\ flipped <> signature
  /\ verifyWebhook fox (Some flipped) "key" = Ok true.
Proof.
  cbv zeta. split; [vm_compute; reflexivity|].
  split; [|vm_compute; reflexivity].
  intros H. vm_compute in H. discriminate H.
Qed.

Lemma webhook_digest_roundtrip_witness :
  verifyWebhook fox
    (Some "f7bc83f430538424b13298e6aa6fb143ef4d59a14946175997479dbc2d1a3cd9")
    "key"
  = Ok false.
Proof.
  apply (webhook_digest_roundtrip fox "key") with (i := 31%nat) (j := 0%nat).
  - vm_compute. lia.
  - lia.
  - vm_compute. reflexivity.
Defined.

(** *** Malformed signatures *)

(** A string made of hex digits only, an even number of them. *)
Definition is_hex_string (s : string) : bool :=
  Nat.even (String.length s)
  && forallb (fun c => match unhex c with Some _ => true | None => false end)
       (list_ascii_of_string s).

(** A non-hex character at position [i] stops the decoder before byte
    [i / 2]. *)
Lemma Buffer_from_hex_stops s : forall i c,
  String.get i s = Some c -> unhex c = None ->
  (2 * length (Buffer_from_hex s) <= i)%nat.
Proof.
  induction s as [|a|a b s IH] using string_ind2; intros i c Hget Hc.
  - destruct i; discriminate Hget.
  - cbn. lia.
  - cbn [Buffer_from_hex].
    destruct i as [|[|i]]; cbn in Hget.
    + injection Hget as ->. rewrite Hc. cbn. lia.
    + injection Hget as ->. rewrite Hc. destruct (unhex a); cbn; lia.
    + destruct (unhex a); [|cbn; lia]. destruct (unhex b); [|cbn; lia].
      cbn [length]. specialize (IH i c Hget Hc). lia.
Qed.

(** C4 (amended).  The verifier returns a boolean on every input.  It
    returns [false] when the header is absent or empty, when the decoded
    signature differs in length from the 32-byte digest, and when a
    character that is not a hex digit occurs among the first 64 characters
    of the signature; characters after 64 hex digits are not examined.  A
    signature with the [sha256=] prefix is handled as the same signature
    without it. *)
Theorem verifyWebhook_malformed (payload : Buffer) (secret : string) :
  (forall h, exists b, verifyWebhook payload h secret = Ok b)
  /\ verifyWebhook payload None secret = Ok false
  /\ verifyWebhook payload (Some "") secret = Ok false
  /\ (forall h,
        length (Buffer_from_hex (signature_hex h))
        <> length (Sha256.hmac (Buffer_from_string secret) payload) ->
        verifyWebhook payload (Some h) secret = Ok false)
  /\ (forall h i c, (i < 64)%nat ->
        String.get i (signature_hex h) = Some c -> unhex c = None ->
        verifyWebhook payload (Some h) secret = Ok false)
  /\ (forall s, String.prefix "sha256=" s = false ->
        verifyWebhook payload (Some ("sha256=" +:+ s)) secret
        = verifyWebhook payload (Some s) secret).
Proof.
  pose proof (length_hmac (Buffer_from_string secret) payload) as Hlen.
  split; [|split; [|split; [|split; [|split]]]].
  - intros [h|]; [|by exists false].
    rewrite verifyWebhook_Some. eauto.
  - reflexivity.
  - reflexivity.
  - intros h Hl. apply verifyWebhook_false. intros H. apply Hl. by rewrite H.
  - intros h i c Hi Hget Hc. apply verifyWebhook_false. intros H.
    pose proof (Buffer_from_hex_stops _ _ _ Hget Hc) as Hs.
    rewrite H, Hlen in Hs. lia.
  - intros s Hp. rewrite !verifyWebhook_Some. f_equal.
    apply bool_decide_ext.
    rewrite signature_hex_prefixed, Buffer_from_hex_first_piece.
    unfold signature_hex. rewrite Hp. split.
    + intros [_ H]. split; [|exact H].
      intros ->. rewrite <- H in Hlen. cbn in Hlen. discriminate Hlen.
    + intros [_ H]. split; [discriminate|exact H].
Qed.

(** C4, as stated, fails: the digest followed by [zz] is not valid hex,
    and it is accepted, because decoding stops at the first [z]. *)
Lemma trailing_garbage_counterexample :
  let signature :=
    "f7bc83f430538424b13298e6aa6fb143ef4d59a14946175997479dbc2d1a3cd8zz" in
  is_hex_string signature = false
  /\ verifyWebhook fox (Some signature) "key" = Ok true.
Proof. cbv zeta. split; vm_compute; reflexivity. Qed.

Lemma verifyWebhook_malformed_witness :
  verifyWebhook fox
    (Some "f7bc83f430538424b13298e6aa6fb143ef4d59a1494617599747-dbc2d1a3cd8")
    "key"
  = Ok false.
Proof.
  apply (verifyWebhook_malformed fox "key") with (i := 52%nat) (c := "-"%char).
  - lia.
  - reflexivity.
  - reflexivity.
Defined.

(** * Further properties of the dispatcher *)

Fixpoint set_count (evs : list event) : nat :=
  match evs with
  | SetTimeout _ _ :: rest => S (set_count rest)
  | _ :: rest => set_count rest
  | [] => O
  end.

Lemma set_count_app a b : set_count (a ++ b)%list = (set_count a + set_count b)%nat.
Proof.
  induction a as [|[] a IH]; cbn; rewrite ?IH; reflexivity.
Qed.

(** The value a 2xx response is decoded to: [JSON.parse(text)], or
    [{ raw: text }] when the text is not JSON. *)
Definition decoded (JSON_parse : string -> option json) (res : Response) : json :=
  match JSON_parse (text res) with
  | Some v => v
  | None => JObj [("raw", JStr (text res))]
  end.

Section DispatcherShape.

Variable fetch : nat -> string -> RequestInit -> exchange.
Variable JSON_parse : string -> option json.

(** One pass through the [try] block: one timer, one exchange, and a wait
    only on the way to a retry, which the budget must allow. *)
Lemma try_block_shape url options attempt w :
  exists evs,
    snd (try_block fetch JSON_parse url options attempt w) = push w 1 evs
    /\ fetch_count evs = 1%nat /\ set_count evs = 1%nat
    /\ (fst (try_block fetch JSON_parse url options attempt w) = Ok ReturnRetry ->
        length (sleeps evs) = 1%nat)
    /\ (fst (try_block fetch JSON_parse url options attempt w) <> Ok ReturnRetry ->
        sleeps evs = []).
Proof.
  unfold try_block, bind, get_this, setTimeout_abort, await_fetch, emit, ret, throw.
  cbn. destruct (fetch _ _ _) as [res|e]; cbn.
  - repeat match goal with
           | |- context [if ?b then _ else _] => destruct b
           end; cbn;
      eexists; unfold push; cbn; rewrite <- ?app_assoc; cbn;
      (split; [reflexivity|]); cbn;
      repeat split; try reflexivity; try discriminate;
      intros H; try reflexivity; exfalso; by apply H.
  - eexists; unfold push; cbn; rewrite <- ?app_assoc; cbn.
    split; [reflexivity|]. cbn. repeat split; try reflexivity; discriminate.
Qed.

(** What one pass through the [try] block completes with, read off the
    exchange it made. *)
Lemma try_block_outcome url options attempt w :
  nfetch (snd (try_block fetch JSON_parse url options attempt w)) = S (nfetch w)
  /\ match fetch (S (nfetch w)) url options with
     | Rejects e =>
         fst (try_block fetch JSON_parse url options attempt w) = Throw e
     | Resolves res =>
         if ok res
         then fst (try_block fetch JSON_parse url options attempt w)
              = Ok (Return (decoded JSON_parse res))
         else fst (try_block fetch JSON_parse url options attempt w) = Ok ReturnRetry
              \/ fst (try_block fetch JSON_parse url options attempt w)
                 = Throw (rejection url res)
     end.
Proof.
  unfold try_block, bind, get_this, setTimeout_abort, await_fetch, emit, ret, throw,
    rejection, decoded.
  cbn. destruct (fetch _ _ _) as [res|e]; cbn; [|by split].
  destruct (ok res); cbn; [by split|].
  repeat match goal with
         | |- context [if ?b then _ else _] => destruct b
         end; cbn; split; try reflexivity; auto.
Qed.

Lemma dispatch_shape url options attempt w :
  exists k evs,
    snd (_fetchWithRetry fetch JSON_parse url options attempt w) = push w k evs
    /\ fetch_count evs = k /\ set_count evs = k
    /\ S (length (sleeps evs)) = k
    /\ (k + attempt <= Nat.max (attempt + 1) (maxRetries (this w) + 1))%nat.
Proof.
  funelim (_fetchWithRetry fetch JSON_parse url options attempt w);
    match goal with
    | E : try_block _ _ _ _ ?a ?w = (_, ?w1) |- _ =>
        destruct (try_block_shape url options a w)
          as (evs & Hw & Hf & Hs & Hretry & Hstop);
        pose proof (try_block_retry fetch JSON_parse url options a w) as Hbudget;
        rewrite E in Hw, Hretry, Hstop, Hbudget; cbn in Hw, Hretry, Hstop
    end.
  - exists 1%nat, evs. rewrite Hstop by discriminate. cbn.
    repeat split; try assumption; try reflexivity. lia.
  - destruct H as (k & evs' & Hw' & Hf' & Hs' & Hsl' & Hb'). subst w1.
    specialize (Hbudget _ eq_refl). cbn in Hb'.
    exists (k + 1)%nat, (evs ++ evs')%list. rewrite Hw', push_push.
    rewrite fetch_count_app, set_count_app, sleeps_app, length_app.
    rewrite Hretry by reflexivity.
    repeat split; try lia.
  - destruct H as (k & evs' & Hw' & Hf' & Hs' & Hsl' & Hb'). subst w1.
    cbn in Hb', l.
    exists (k + 1)%nat,
      (evs ++ [Sleep (backoff_ms (this w) (attempt + 1))] ++ evs')%list.
    rewrite Hw'. unfold push; cbn.
    rewrite fetch_count_app, set_count_app, sleeps_app, length_app.
    rewrite Hstop by discriminate. cbn.
    repeat split; try lia.
    f_equal; [lia|]. by rewrite <- !app_assoc.
  - exists 1%nat, evs. rewrite Hstop by discriminate. cbn.
    repeat split; try assumption; try reflexivity. lia.
Qed.

End DispatcherShape.

(** X1. Whatever the transport does, one call of the dispatcher makes at
    least one exchange and at most [maxRetries + 1], and sets one abort
    timer per exchange. *)
Theorem dispatch_exchange_bound fetch JSON_parse url options w :
  exists k evs,
    snd (_fetchWithRetry fetch JSON_parse url options 0 w) = push w k evs
    /\ fetch_count evs = k /\ set_count evs = k
    /\ (1 <= k <= maxRetries (this w) + 1)%nat.
Proof.
  destruct (dispatch_shape fetch JSON_parse url options 0 w)
    as (k & evs & Hw & Hf & Hs & Hsl & Hb).
  exists k, evs. repeat split; try assumption; lia.
Qed.

(** X2. The dispatcher waits exactly once before each retry and never after
    its last exchange: a call that makes [k] exchanges makes [k - 1] waits. *)
Theorem dispatch_one_wait_per_retry fetch JSON_parse url options attempt w :
  exists k evs,
    snd (_fetchWithRetry fetch JSON_parse url options attempt w) = push w k evs
    /\ fetch_count evs = k
    /\ length (sleeps evs) = (k - 1)%nat.
Proof.
  destruct (dispatch_shape fetch JSON_parse url options attempt w)
    as (k & evs & Hw & Hf & Hs & Hsl & Hb).
  exists k, evs. repeat split; try assumption; lia.
Qed.

(** X3. Only the last exchange shows in the outcome.  If the transport
    rejected it, that rejection is thrown unchanged; if it answered with a
    2xx status, the decoded body is returned; otherwise the error of that
    response's class is thrown. *)
Theorem dispatch_outcome_of_last_exchange fetch JSON_parse url options attempt w :
  match fetch (nfetch (snd (_fetchWithRetry fetch JSON_parse url options attempt w)))
          url options with
  | Rejects e =>
      fst (_fetchWithRetry fetch JSON_parse url options attempt w) = Throw e
  | Resolves res =>
      fst (_fetchWithRetry fetch JSON_parse url options attempt w)
      = if ok res then Ok (decoded JSON_parse res) else Throw (rejection url res)
  end.
Proof.
  funelim (_fetchWithRetry fetch JSON_parse url options attempt w);
    match goal with
    | E : try_block _ _ _ _ ?a ?w = (_, ?w1) |- _ =>
        destruct (try_block_outcome fetch JSON_parse url options a w) as (Hn & Ho);
        rewrite E in Hn, Ho; cbn in Hn, Ho
    end; try assumption.
  - cbn. rewrite Hn. destruct (fetch _ _ _) as [res|ex]; [|discriminate Ho].
    destruct (ok res); [by injection Ho as ->|].
    destruct Ho as [Ho|Ho]; discriminate Ho.
  - cbn. rewrite Hn. destruct (fetch _ _ _) as [res|ex]; [|by injection Ho as ->].
    destruct (ok res); [discriminate Ho|].
    destruct Ho as [Ho|Ho]; [discriminate Ho|by injection Ho as ->].
Qed.

(** X6. Every exchange of one call is made with the URL and the options the
    call was given: a retry sends the request again, unchanged, and the
    client object is not modified. *)
Theorem retries_resend_same_request fetch JSON_parse url options attempt w :
  exists k evs,
    snd (_fetchWithRetry fetch JSON_parse url options attempt w) = push w k evs
    /\ this (snd (_fetchWithRetry fetch JSON_parse url options attempt w)) = this w
    /\ In (Fetch url options) evs
    /\ forall u i, In (Fetch u i) evs -> u = url /\ i = options.
Proof.
  destruct (dispatch_world fetch JSON_parse url options attempt w)
    as (k & evs & Hw & Hin & Hall).
  exists k, evs. rewrite Hw.
  split; [reflexivity|]. split; [reflexivity|]. split; [exact Hin|exact Hall].
Qed.

(** The events of [S k] rejected exchanges, the first with timer [id] at
    attempt number [attempt], each but the last followed by its backoff. *)
Fixpoint rejecting_trace (c : GuruTvapayClient) (url : string) (options : RequestInit)
    (id attempt k : nat) : list event :=
  match k with
  | O => rejected c id url options
  | S k' =>
      (rejected c id url options ++ [Sleep (backoff_ms c attempt)]
       ++ rejecting_trace c url options (S id) (S attempt) k')%list
  end.

Lemma fetch_count_rejecting_trace c url options id attempt k :
  fetch_count (rejecting_trace c url options id attempt k) = S k.
Proof.
  revert id attempt; induction k as [|k IH]; intros id attempt; cbn; [reflexivity|].
  by rewrite IH.
Qed.

Lemma sleeps_rejecting_trace c url options id attempt k :
  sleeps (rejecting_trace c url options id attempt k)
  = map (backoff_ms c) (seq attempt k).
Proof.
  revert id attempt; induction k as [|k IH]; intros id attempt; cbn; [reflexivity|].
  by rewrite IH.
Qed.

Lemma dispatch_all_rejecting fetch JSON_parse url options :
  (forall n, exists e, fetch n url options = Rejects e) ->
  forall k attempt w,
    maxRetries (this w) = (attempt + k)%nat ->
    exists last,
      fetch (S (nfetch w) + k) url options = Rejects last
      /\ _fetchWithRetry fetch JSON_parse url options attempt w
         = (Throw last,
            push w (S k)
              (rejecting_trace (this w) url options (S (nfetch w)) (attempt + 1) k)).
Proof.
  intros Hall. induction k as [|k IH]; intros attempt w Hm.
  - destruct (Hall (S (nfetch w))) as (e & Hf).
    exists e. rewrite Nat.add_0_r. split; [exact Hf|].
    apply dispatch_rejected_final; [assumption|lia].
  - destruct (Hall (S (nfetch w))) as (e & Hf).
    rewrite (dispatch_rejected_retry _ _ _ _ _ _ _ Hf) by lia.
    set (w1 := push w 1 _).
    destruct (IH (attempt + 1)%nat w1) as (last & Hl & Hrun); [cbn; lia|].
    exists last. split.
    + cbn in Hl. rewrite <- Hl. f_equal. lia.
    + rewrite Hrun. unfold w1. rewrite push_push. cbn.
      replace (attempt + 1 + 1)%nat with (S (attempt + 1)) by lia.
      f_equal. unfold push; cbn. f_equal. lia.
Qed.

(** X4. When the transport rejects every exchange (network failure or
    timeout abort), the dispatcher makes exactly [maxRetries + 1] exchanges,
    waits [backoffFactor * 2^(n-1)] seconds before the n-th retry, and then
    throws the last rejection as the transport raised it. *)
Theorem transport_failures_exhaust_retries fetch JSON_parse url options w :
  (forall n, exists e, fetch n url options = Rejects e) ->
  exists last evs,
    fetch (S (nfetch w) + maxRetries (this w)) url options = Rejects last
    /\ _fetchWithRetry fetch JSON_parse url options 0 w
       = (Throw last, push w (maxRetries (this w) + 1) evs)
    /\ fetch_count evs = (maxRetries (this w) + 1)%nat
    /\ sleeps evs
       = map (fun n => (backoffFactor (this w) * Math_pow2 (Z.of_nat n - 1) * 1000)%float)
             (seq 1 (maxRetries (this w))).
Proof.
  intros Hall.
  destruct (dispatch_all_rejecting fetch JSON_parse url options Hall
              (maxRetries (this w)) 0%nat w eq_refl) as (last & Hl & Hrun).
  exists last, (rejecting_trace (this w) url options (S (nfetch w)) 1
                  (maxRetries (this w))).
  split; [exact Hl|]. split.
  - rewrite Hrun.
    replace (maxRetries (this w) + 1)%nat with (S (maxRetries (this w))) by lia.
    reflexivity.
  - split.
    + rewrite fetch_count_rejecting_trace. lia.
    + apply sleeps_rejecting_trace.
Qed.

Lemma transport_failures_exhaust_retries_witness :
  exists last evs,
    offline (S (nfetch (fresh default_client)) + maxRetries default_client)%nat
      "u" get_options = Rejects last
    /\ _fetchWithRetry offline no_json "u" get_options 0 (fresh default_client)
       = (Throw last, push (fresh default_client) (maxRetries default_client + 1) evs)
    /\ fetch_count evs = (maxRetries default_client + 1)%nat
    /\ sleeps evs
       = map (fun n => (backoffFactor default_client * Math_pow2 (Z.of_nat n - 1) * 1000)%float)
             (seq 1 (maxRetries default_client)).
Proof.
  apply (transport_failures_exhaust_retries offline no_json "u" get_options
           (fresh default_client)).
  intros n. by exists (TypeError "fetch failed").
Defined.

(** X5. One failed first exchange is absorbed.  If the first exchange is
    rejected or answered with a status outside 2xx, the budget allows a
    retry, and the second exchange is answered with a 2xx status, the call
    returns the decoded second body after exactly two exchanges and one
    wait; unless the first answer was a 429 with a [Retry-After] header,
    that wait is [backoffFactor] seconds. *)
Theorem dispatch_recovers_after_one_failure fetch JSON_parse url options w res2 :
  match fetch (S (nfetch w)) url options with
  | Resolves res1 => ok res1 = false
  | Rejects _ => True
  end ->
  (1 <= maxRetries (this w))%nat ->
  fetch (S (S (nfetch w))) url options = Resolves res2 ->
  ok res2 = true ->
  exists evs wait,
    _fetchWithRetry fetch JSON_parse url options 0 w
    = (Ok (decoded JSON_parse res2), push w 2 evs)
    /\ fetch_count evs = 2%nat
    /\ sleeps evs = [wait]
    /\ (match fetch (S (nfetch w)) url options with
        | Resolves res1 =>
            (status res1 =? 429)%Z && truthy_str (retry_after res1) = false
        | Rejects _ => True
        end ->
        wait = (backoffFactor (this w) * Math_pow2 (Z.of_nat 1 - 1) * 1000)%float).
Proof.
  intros H1 Hm H2 Hok2.
  destruct (fetch (S (nfetch w)) url options) as [res1|e] eqn:Hf1.
  - destruct ((status res1 =? 429)%Z && truthy_str (retry_after res1)) eqn:Hh.
    + apply andb_prop in Hh as [Hs Hra]. apply Z.eqb_eq in Hs.
      destruct (retry_after res1) as [ra|] eqn:Era; [|discriminate Hra].
      assert (ra <> "") as Hne.
      { cbn in Hra. intros ->. discriminate Hra. }
      rewrite (dispatch_hint fetch JSON_parse url options 0 w res1 ra Hf1 Hs Era Hne)
        by (cbn; lia).
      erewrite (dispatch_ok fetch JSON_parse url options); [|exact H2|exact Hok2].
      rewrite push_push. cbn.
      eexists _, _. split; [reflexivity|].
      split; [reflexivity|]. split; [reflexivity|]. intros Hc. discriminate Hc.
    + rewrite (dispatch_failed_retry fetch JSON_parse url options 0 w res1 Hf1 H1 Hh)
        by (cbn; lia).
      erewrite (dispatch_ok fetch JSON_parse url options); [|exact H2|exact Hok2].
      rewrite push_push. cbn.
      eexists _, _. split; [reflexivity|].
      split; [reflexivity|]. split; [reflexivity|]. intros _. reflexivity.
  - rewrite (dispatch_rejected_retry fetch JSON_parse url options 0 w e Hf1)
      by (cbn; lia).
    erewrite (dispatch_ok fetch JSON_parse url options); [|exact H2|exact Hok2].
    rewrite push_push. cbn.
    eexists _, _. split; [reflexivity|].
    split; [reflexivity|]. split; [reflexivity|]. intros _. reflexivity.
Qed.

Definition down_then_ok : nat -> string -> RequestInit -> exchange :=
  first_then (Rejects AbortError)
    (Resolves {| status := 200; retry_after := None; text := "fine" |}).

Lemma dispatch_recovers_after_one_failure_witness :
  exists evs wait,
    _fetchWithRetry down_then_ok no_json "u" get_options 0 (fresh default_client)
    = (Ok (decoded no_json {| status := 200; retry_after := None; text := "fine" |}),
       push (fresh default_client) 2 evs)
    /\ fetch_count evs = 2%nat
    /\ sleeps evs = [wait]
    /\ (True ->
        wait = (backoffFactor default_client * Math_pow2 (Z.of_nat 1 - 1) * 1000)%float).
Proof.
  apply (dispatch_recovers_after_one_failure down_then_ok no_json "u" get_options
           (fresh default_client)
           {| status := 200; retry_after := None; text := "fine" |}).
  - exact I.
  - cbn. lia.
  - reflexivity.
  - reflexivity.
Defined.

(** * Further properties of login and of the auth header *)

Section LoginThenAuth.

Variable fetch : nat -> string -> RequestInit -> exchange.
Variable JSON_parse : string -> option json.
Variable URLSearchParams_toString : list (string * string) -> string.

Local Abbreviation login :=
  (loginWithPassword fetch JSON_parse URLSearchParams_toString).
Local Abbreviation sent_by w username password grant_type :=
  (_fetchWithRetry fetch JSON_parse (login_url (this w))
     (login_init URLSearchParams_toString (this w) username password grant_type)
     0 w).

Lemma login_success now username password grant_type w res tok e :
  configured (clientId (this w)) -> configured (clientSecret (this w)) ->
  fst (sent_by w username password grant_type) = Ok res ->
  get_prop "access_token" res = Some (JStr tok) -> tok <> "" ->
  login_expires_at now res = Some e ->
  login now username password grant_type w
  = Some (Ok {| access_token := tok; expires_at := e |},
          store_token (snd (sent_by w username password grant_type))
            {| access_token := tok; expires_at := e |}).
Proof.
  intros H1 H2 Hsent Htok Hne He.
  rewrite (login_configured fetch JSON_parse URLSearchParams_toString
             now username password grant_type w H1 H2).
  destruct (_fetchWithRetry _ _ _ _ _ _) as [[res'|ex] w1]; cbn [fst snd] in *;
    [|discriminate Hsent].
  injection Hsent as ->.
  rewrite Htok, He. cbn. by destruct (String.eqb_spec tok "").
Qed.

(** The header a client without an API key sends, by its token. *)
Lemma authHeader_of_token later w1 t :
  ~ configured (apiKey (this w1)) ->
  fst (_authHeader later (store_token w1 t))
  = if Qltb (inject_Z later / 1000) (expires_at t - 10)
    then Ok {[ "Authorization" := "Bearer " +:+ access_token t ]}
    else Ok ∅.
Proof.
  intros Hkey. unfold _authHeader, bind, get_this, ret, store_token. cbn.
  destruct (truthy_str (apiKey (this w1))) eqn:E.
  { exfalso. apply Hkey. by apply truthy_str_configured. }
  by destruct (Qltb _ _).
Qed.

(** X7. A token obtained by login is used until 10 seconds before its
    expiry.  On a client without an API key, after a login whose response
    gave a string access token and a number [expires_in] as lifetime (and
    no [expires_at], or a falsy one), [_authHeader] returns that token's
    bearer header at every instant earlier than the login second plus the
    lifetime minus 10 seconds. *)
Theorem token_used_within_lifetime now username password grant_type w res tok
    life (later : Z) :
  configured (clientId (this w)) -> configured (clientSecret (this w)) ->
  ~ configured (apiKey (this w)) ->
  fst (sent_by w username password grant_type) = Ok res ->
  get_prop "access_token" res = Some (JStr tok) -> tok <> "" ->
  truthy_opt (get_prop "expires_at" res) = false ->
  get_prop "expires_in" res = Some (JNum life) ->
  (inject_Z later / 1000 < inject_Z (Qfloor (inject_Z now / 1000)) + life - 10)%Q ->
  exists t w',
    login now username password grant_type w = Some (Ok t, w')
    /\ token (this w') = Some t
    /\ access_token t = tok
    /\ fst (_authHeader later w') = Ok {[ "Authorization" := "Bearer " +:+ tok ]}.
Proof.
  intros Hid Hsec Hkey Hsent Htok Hne Hat Hin Hlt.
  pose proof (dispatch_this fetch JSON_parse (login_url (this w))
                (login_init URLSearchParams_toString (this w)
                   username password grant_type) 0 w) as Hthis.
  assert (exists e, login_expires_at now res = Some e
                    /\ (e == inject_Z (Qfloor (inject_Z now / 1000)) + life)%Q)
    as (e & He & Heq).
  { unfold login_expires_at. rewrite Hat, Hin. cbn [truthy_opt truthy].
    destruct (Qeq_bool life 0) eqn:El; cbn [negb].
    - apply Qeq_bool_iff in El. eexists. split; [reflexivity|]. by rewrite El.
    - eexists. split; reflexivity. }
  rewrite (login_success now username password grant_type w res tok e
             Hid Hsec Hsent Htok Hne He).
  eexists _, _. split; [reflexivity|]. split; [reflexivity|].
  split; [reflexivity|].
  rewrite authHeader_of_token by (by rewrite Hthis).
  cbn [expires_at access_token].
  assert (Qltb (inject_Z later / 1000) (e - 10) = true) as ->; [|reflexivity].
  apply Qltb_lt. rewrite Heq. exact Hlt.
Qed.

(** X8. A login response that gives a string access token and neither an
    [expires_at] nor an [expires_in] (each absent or falsy) yields a token
    that is never sent: its expiry is the login second, so from the login
    on fewer than the 10 seconds of margin remain, and on a client without
    an API key [_authHeader] returns no header. *)
Theorem token_without_lifetime_is_never_used now username password grant_type w
    res tok (later : Z) :
  configured (clientId (this w)) -> configured (clientSecret (this w)) ->
  ~ configured (apiKey (this w)) ->
  fst (sent_by w username password grant_type) = Ok res ->
  get_prop "access_token" res = Some (JStr tok) -> tok <> "" ->
  truthy_opt (get_prop "expires_at" res) = false ->
  truthy_opt (get_prop "expires_in" res) = false ->
  (now <= later)%Z ->
  exists w',
    login now username password grant_type w
    = Some (Ok {| access_token := tok;
                  expires_at := (inject_Z (Qfloor (inject_Z now / 1000)) + 0)%Q |},
            w')
    /\ token (this w')
       = Some {| access_token := tok;
                 expires_at := (inject_Z (Qfloor (inject_Z now / 1000)) + 0)%Q |}
    /\ fst (_authHeader later w') = Ok ∅.
Proof.
  intros Hid Hsec Hkey Hsent Htok Hne Hat Hin Hle.
  pose proof (dispatch_this fetch JSON_parse (login_url (this w))
                (login_init URLSearchParams_toString (this w)
                   username password grant_type) 0 w) as Hthis.
  assert (login_expires_at now res
          = Some (inject_Z (Qfloor (inject_Z now / 1000)) + 0)%Q) as He.
  { unfold login_expires_at. by rewrite Hat, Hin. }
  rewrite (login_success now username password grant_type w res tok _
             Hid Hsec Hsent Htok Hne He).
  eexists. split; [reflexivity|]. split; [reflexivity|].
  rewrite authHeader_of_token by (by rewrite Hthis).
  cbn [expires_at access_token].
  pose proof (Qfloor_le (inject_Z now / 1000)) as Hfl.
  assert (inject_Z now / 1000 <= inject_Z later / 1000)%Q as Hmono.
  { apply Qmult_le_compat_r; [|discriminate].
    rewrite <- Zle_Qle. exact Hle. }
  remember (Qfloor (inject_Z now / 1000)) as F eqn:HF. clear HF.
  remember (inject_Z now / 1000)%Q as n eqn:Hn. clear Hn.
  remember (inject_Z later / 1000)%Q as l eqn:Hl. clear Hl.
  match goal with
  | |- context [Qltb ?a ?b] => destruct (Qltb a b) eqn:El; [|reflexivity]
  end.
  exfalso. apply Qltb_lt in El. lra.
Qed.

(** X9. The login request carries no credentials header.  Without a
    client id or a client secret no exchange is made: the login throws and
    the world, its log included, is as before.  With both, the login makes
    at least one exchange, and every exchange is a POST to
    [root + prefix + '/login'] whose only header is the form content type,
    also on a client that has an API key or a cached token. *)
Theorem login_sends_no_authorization now username password grant_type w :
  (~ (configured (clientId (this w)) /\ configured (clientSecret (this w))) ->
   loginWithPassword fetch JSON_parse URLSearchParams_toString
     now username password grant_type w
   = Some (Throw (Error "clientId and clientSecret required"), w))
  /\ (configured (clientId (this w)) /\ configured (clientSecret (this w)) ->
      exists n evs,
        snd (sent_by w username password grant_type) = push w n evs
        /\ (forall r w',
              loginWithPassword fetch JSON_parse URLSearchParams_toString
                now username password grant_type w = Some (r, w') ->
              log w' = (log w ++ evs)%list /\ nfetch w' = (n + nfetch w)%nat)
        /\ (exists url init, In (Fetch url init) evs)
        /\ forall url init, In (Fetch url init) evs ->
             url = root (this w) +:+ ENV_PREFIXES (env (this w)) +:+ "/login"
             /\ method init = "POST"
             /\ headers init
                = {[ "Content-Type" := "application/x-www-form-urlencoded" ]}
             /\ headers init !! "Authorization" = None).
Proof.
  split.
  - intros Hnc. unfold loginWithPassword.
    destruct (truthy_str (clientId (this w))) eqn:E1; cbn; [|reflexivity].
    destruct (truthy_str (clientSecret (this w))) eqn:E2; cbn; [|reflexivity].
    exfalso. apply Hnc. split; by apply truthy_str_configured.
  - intros [H1 H2].
    rewrite (login_configured fetch JSON_parse URLSearchParams_toString
               now username password grant_type w H1 H2).
    destruct (dispatch_world fetch JSON_parse (login_url (this w))
                (login_init URLSearchParams_toString (this w)
                   username password grant_type) 0 w)
      as (k & evs & Hw & Hin & Hall).
    exists k, evs. split; [exact Hw|]. split; [|split].
    + intros r w'.
      destruct (_fetchWithRetry _ _ _ _ _ _) as [[res|e] w1]; cbn [snd] in Hw;
        subst w1.
      * destruct (truthy_opt _).
        -- destruct (get_prop "access_token" res) as [[]|]; try discriminate.
           destruct (login_expires_at now res); [|discriminate].
           intros [= <- <-]. by split.
        -- intros [= <- <-]. by split.
      * intros [= <- <-]. by split.
    + by eexists _, _.
    + intros url init Hf. destruct (Hall url init Hf) as [-> ->].
      repeat split; reflexivity.
Qed.

End LoginThenAuth.

Definition hour_token_response : json :=
  JObj [ ("access_token", JStr "tok"); ("expires_in", JNum 3600) ].

Definition bare_token_response : json :=
  JObj [ ("access_token", JStr "tok") ].

Lemma token_used_within_lifetime_witness :
  exists t w',
    loginWithPassword answers_200 (decode_as hour_token_response)
      form_encode 1700000000000 "user" "pw" None (fresh oauth_client)
    = Some (Ok t, w')
    /\ token (this w') = Some t
    /\ access_token t = "tok"
    /\ fst (_authHeader 1700003589000 w')
       = Ok {[ "Authorization" := "Bearer " +:+ "tok" ]}.
Proof.
  apply (token_used_within_lifetime answers_200 (decode_as hour_token_response)
           form_encode 1700000000000 "user" "pw" None (fresh oauth_client)
           hour_token_response "tok" 3600%Q 1700003589000).
  - exists "id". split; [reflexivity|discriminate].
  - exists "secret". split; [reflexivity|discriminate].
  - intros (s & Hs & _). discriminate Hs.
  - vm_compute. reflexivity.
  - reflexivity.
  - discriminate.
  - reflexivity.
  - reflexivity.
  - reflexivity.
Defined.

Lemma token_without_lifetime_is_never_used_witness :
  exists w',
    loginWithPassword answers_200 (decode_as bare_token_response)
      form_encode 1700000000000 "user" "pw" None (fresh oauth_client)
    = Some (Ok {| access_token := "tok";
                  expires_at :=
                    (inject_Z (Qfloor (inject_Z 1700000000000 / 1000)) + 0)%Q |},
            w')
    /\ token (this w')
       = Some {| access_token := "tok";
                 expires_at :=
                   (inject_Z (Qfloor (inject_Z 1700000000000 / 1000)) + 0)%Q |}
    /\ fst (_authHeader 1700000000000 w') = Ok ∅.
Proof.
  apply (token_without_lifetime_is_never_used answers_200
           (decode_as bare_token_response) form_encode 1700000000000 "user" "pw"
           None (fresh oauth_client) bare_token_response "tok" 1700000000000).
  - exists "id". split; [reflexivity|discriminate].
  - exists "secret". split; [reflexivity|discriminate].
  - intros (s & Hs & _). discriminate Hs.
  - vm_compute. reflexivity.
  - reflexivity.
  - discriminate.
  - reflexivity.
  - reflexivity.
  - lia.
Defined.

Lemma login_sends_no_authorization_witness :
  loginWithPassword answers_200 (decode_as bare_token_response) form_encode
    1700000000000 "user" "pw" None (fresh default_client)
  = Some (Throw (Error "clientId and clientSecret required"), fresh default_client).
Proof.
  apply (login_sends_no_authorization answers_200 (decode_as bare_token_response)
           form_encode 1700000000000 "user" "pw" None (fresh default_client)).
  intros [(s & Hs & _) _]. discriminate Hs.
Defined.

(** * Further properties of the endpoint callers *)

Section Endpoints.

Variable fetch : nat -> string -> RequestInit -> exchange.
Variable JSON_parse : string -> option json.
Variable JSON_stringify : json -> string.
Variable URLSearchParams_toString : list (string * string) -> string.

Lemma authHeader_configured now w key :
  apiKey (this w) = Some key -> key <> "" ->
  fst (_authHeader now w) = Ok {[ "Authorization" := "Bearer " +:+ key ]}.
Proof.
  intros Hk Hne. unfold _authHeader, bind, get_this, ret. cbn.
  rewrite Hk. cbn. destruct (String.eqb_spec key ""); [contradiction|reflexivity].
Qed.

Lemma spread_keep (a b : gmap string string) k :
  b !! k = None -> spread a b !! k = a !! k.
Proof.
  intros H. unfold spread. rewrite lookup_union_r; [reflexivity|exact H].
Qed.

(** Opens a caller down to its dispatch and names the exchanges made. *)
Ltac open_call w :=
  unfold bind at 1; unfold get_this at 1; cbn beta iota;
  rewrite authHeader_run;
  match goal with
  | |- context [_fetchWithRetry _ _ ?u ?i 0 w] =>
      let n := fresh "n" in
      let evs := fresh "evs" in
      let Hw := fresh "Hw" in
      let Hin := fresh "Hin" in
      let Hall := fresh "Hall" in
      let Hf := fresh "Hf" in
      destruct (dispatch_world fetch JSON_parse u i 0 w)
        as (n & evs & Hw & Hin & Hall);
      exists n, evs; split; [exact Hw|]; split; [by exists u, i|];
      intros ? ? Hf; destruct (Hall _ _ Hf) as [-> ->]
  end.

(** X10. In [request] the leading slash of a relative path is optional:
    a path that does not start with [/] (and is not an absolute URL) and
    the same path with [/] in front give the same call. *)
Theorem request_leading_slash_optional now method path o w :
  String.prefix "/" path = false ->
  String.prefix "http://" path = false ->
  String.prefix "https://" path = false ->
  request fetch JSON_parse JSON_stringify URLSearchParams_toString
    now method ("/" +:+ path) o w
  = request fetch JSON_parse JSON_stringify URLSearchParams_toString
      now method path o w.
Proof.
  intros Hs Hh1 Hh2. unfold request.
  rewrite Hs, Hh1, Hh2.
  change ("/" +:+ path) with (String "/" path).
  assert (String.prefix "/" (String "/" path) = true) as Hp.
  { cbn. by destruct path. }
  rewrite Hp. reflexivity.
Qed.

(** X11. [request] does not confine the credentials to the configured
    root: given an absolute [http://] or [https://] URL and no query
    parameters, the call makes at least one exchange, every exchange goes
    to that URL as it stands, and on a client with an API key it carries
    that key's bearer header unless the caller supplies an [Authorization]
    header. *)
Theorem request_absolute_url_carries_key now method target o w key :
  String.prefix "http://" target || String.prefix "https://" target = true ->
  opt_params o = None ->
  apiKey (this w) = Some key -> key <> "" ->
  opt_headers o !! "Authorization" = None ->
  exists n evs,
    snd (request fetch JSON_parse JSON_stringify URLSearchParams_toString
           now method target o w) = push w n evs
    /\ (exists url init, In (Fetch url init) evs)
    /\ forall url init, In (Fetch url init) evs ->
         url = target
         /\ headers init !! "Authorization" = Some ("Bearer " +:+ key).
Proof.
  intros Habs Hpar Hk Hne Hnone. unfold request.
  open_call w.
  rewrite Habs, Hpar, (authHeader_configured now w key Hk Hne). cbn.
  split; [reflexivity|].
  assert (spread {[ "Authorization" := "Bearer " +:+ key ]} (opt_headers o)
            !! "Authorization" = Some ("Bearer " +:+ key)) as Hauth.
  { rewrite spread_keep by exact Hnone. apply lookup_singleton_eq. }
  destruct (truthy _); cbn; [by apply spread_override|].
  destruct (truthy_data _); cbn; [by apply spread_override|exact Hauth].
Qed.

(** X12. How [request] chooses the body.  The call makes at least one
    exchange, and in each of them: a truthy [jsonBody] is sent
    serialised, with the JSON content type unless the caller set one.  A
    falsy [jsonBody] ([null], [false], [0], the empty string) is not sent:
    then a non-empty [data] string is sent as it is, with the form content
    type unless the caller set one, and with no usable [data] either the
    request has no body and no content type of its own. *)
Theorem request_body_selection now verb pathOrUrl o w :
  exists n evs,
    snd (request fetch JSON_parse JSON_stringify URLSearchParams_toString
           now verb pathOrUrl o w) = push w n evs
    /\ (exists url init, In (Fetch url init) evs)
    /\ forall url init, In (Fetch url init) evs ->
         method init = verb
         /\ (forall j, opt_jsonBody o = Some j -> truthy j = true ->
               body init = Some (JSON_stringify j)
               /\ (opt_headers o !! "Content-Type" = None ->
                   headers init !! "Content-Type" = Some "application/json"))
         /\ (truthy (default JNull (opt_jsonBody o)) = false ->
               (forall s, opt_data o = Some (inl s) -> s <> "" ->
                  body init = Some s
                  /\ (opt_headers o !! "Content-Type" = None ->
                      headers init !! "Content-Type"
                      = Some "application/x-www-form-urlencoded"))
               /\ (truthy_data (opt_data o) = false ->
                   body init = None
                   /\ headers init !! "Content-Type"
                      = opt_headers o !! "Content-Type")).
Proof.
  unfold request. open_call w.
  assert (forall h : gmap string string,
             opt_headers o !! "Content-Type" = None ->
             (match fst (_authHeader now w) with Ok a => a | Throw _ => ∅ end)
               !! "Content-Type" = None) as Hauth.
  { intros _ _. unfold _authHeader, bind, get_this, ret. cbn.
    destruct (truthy_str _); cbn; [reflexivity|].
    destruct (token _) as [t|]; [|reflexivity].
    destruct (Qltb _ _); reflexivity. }
  destruct (truthy (default JNull (opt_jsonBody o))) eqn:Ej; cbn.
  - split; [reflexivity|]. split; [|discriminate].
    intros j Hj Ht. rewrite Hj. cbn. split; [reflexivity|].
    intros Hnone. rewrite !spread_keep; try assumption.
    + apply lookup_singleton_eq.
    + rewrite spread_keep by assumption. by apply (Hauth ∅).
  - destruct (truthy_data (opt_data o)) eqn:Ed; cbn.
    + split; [reflexivity|]. split.
      { intros j Hj Ht. rewrite Hj in Ej. cbn in Ej. congruence. }
      intros _. split; [|discriminate].
      intros s Hs Hne. rewrite Hs. split; [reflexivity|].
      intros Hnone. rewrite !spread_keep; try assumption.
      * apply lookup_singleton_eq.
      * rewrite spread_keep by assumption. by apply (Hauth ∅).
    + split; [reflexivity|]. split.
      { intros j Hj Ht. rewrite Hj in Ej. cbn in Ej. congruence. }
      intros _. split.
      { intros s Hs Hne. rewrite Hs in Ed. cbn in Ed.
        destruct (String.eqb_spec s ""); [contradiction|discriminate Ed]. }
      intros _. split; [reflexivity|].
      destruct (opt_headers o !! "Content-Type") as [v|] eqn:Ec.
      * by apply spread_override.
      * rewrite spread_keep by assumption. by apply (Hauth ∅).
Qed.

(** X13. On a client with an API key every endpoint call is
    authenticated with it: each call makes at least one exchange, and each
    exchange of [transactionStatus],
    [transactionList] and, when the caller passes no [Authorization] header
    of its own, [createPayment] carries [Authorization: Bearer <apiKey>]. *)
Theorem api_key_on_every_endpoint now w key :
  apiKey (this w) = Some key -> key <> "" ->
  (forall merchantOrderId, exists n evs,
      snd (transactionStatus fetch JSON_parse URLSearchParams_toString
             now merchantOrderId w) = push w n evs
      /\ (exists url init, In (Fetch url init) evs)
      /\ forall url init, In (Fetch url init) evs ->
           headers init !! "Authorization" = Some ("Bearer " +:+ key))
  /\ (forall limit page, exists n evs,
        snd (transactionList fetch JSON_parse now limit page w) = push w n evs
        /\ (exists url init, In (Fetch url init) evs)
        /\ forall url init, In (Fetch url init) evs ->
             headers init !! "Authorization" = Some ("Bearer " +:+ key))
  /\ (forall a extraHeaders,
        extraHeaders !! "Authorization" = None ->
        exists n evs,
          snd (createPayment fetch JSON_parse JSON_stringify now a extraHeaders w)
          = push w n evs
          /\ (exists url init, In (Fetch url init) evs)
          /\ forall url init, In (Fetch url init) evs ->
               headers init !! "Authorization" = Some ("Bearer " +:+ key)).
Proof.
  intros Hk Hne. split; [|split].
  - intros merchantOrderId. unfold transactionStatus. open_call w.
    rewrite (authHeader_configured now w key Hk Hne). cbn.
    apply spread_override, lookup_singleton_eq.
  - intros limit page. unfold transactionList. open_call w.
    rewrite (authHeader_configured now w key Hk Hne). cbn.
    apply spread_override, lookup_singleton_eq.
  - intros a extraHeaders Hnone. unfold createPayment. open_call w.
    rewrite (authHeader_configured now w key Hk Hne). cbn.
    rewrite spread_keep by exact Hnone.
    apply spread_override, lookup_singleton_eq.
Qed.

(** X14. The environment selects the path of the status and list calls
    and not that of [createPayment]: each call makes at least one exchange,
    a payment is always posted to
    [root + '/initiate-payment'], while [transactionStatus] posts to
    [root + prefix + '/transaction-status'] with the prefix of the client's
    environment. *)
Theorem createPayment_ignores_env now w :
  (forall a extraHeaders, exists n evs,
      snd (createPayment fetch JSON_parse JSON_stringify now a extraHeaders w)
      = push w n evs
      /\ (exists url init, In (Fetch url init) evs)
      /\ forall url init, In (Fetch url init) evs ->
           url = root (this w) +:+ "/initiate-payment" /\ method init = "POST")
  /\ (forall merchantOrderId, exists n evs,
        snd (transactionStatus fetch JSON_parse URLSearchParams_toString
               now merchantOrderId w) = push w n evs
        /\ (exists url init, In (Fetch url init) evs)
        /\ forall url init, In (Fetch url init) evs ->
             url = root (this w)
                   +:+ (match env (this w) with
                        | uat => "/uat_mode"
                        | live => "/live"
                        end)
                   +:+ "/transaction-status"
             /\ method init = "POST").
Proof.
  split.
  - intros a extraHeaders. unfold createPayment. open_call w. by split.
  - intros merchantOrderId. unfold transactionStatus. open_call w.
    split; [|reflexivity]. by destruct (env (this w)).
Qed.

End Endpoints.

Lemma request_leading_slash_optional_witness :
  request answers_200 no_json stringify_stub form_encode 1700000000000 "GET"
    ("/" +:+ "orders")
    {| opt_headers := ∅; opt_params := None; opt_data := None;
       opt_jsonBody := None |} (fresh default_client)
  = request answers_200 no_json stringify_stub form_encode 1700000000000 "GET"
      "orders"
      {| opt_headers := ∅; opt_params := None; opt_data := None;
         opt_jsonBody := None |} (fresh default_client).
Proof.
  apply (request_leading_slash_optional answers_200 no_json stringify_stub
           form_encode 1700000000000 "GET" "orders"); reflexivity.
Defined.


Lemma request_absolute_url_carries_key_witness :
  exists n evs,
    snd (request answers_200 no_json stringify_stub form_encode 1700000000000
           "GET" "https://elsewhere.example/hook"
           {| opt_headers := ∅; opt_params := None; opt_data := None;
              opt_jsonBody := None |} (fresh default_client))
    = push (fresh default_client) n evs
    /\ (exists url init, In (Fetch url init) evs)
    /\ forall url init, In (Fetch url init) evs ->
         url = "https://elsewhere.example/hook"
         /\ headers init !! "Authorization" = Some ("Bearer " +:+ "key").
Proof.
  apply (request_absolute_url_carries_key answers_200 no_json stringify_stub
           form_encode 1700000000000 "GET" "https://elsewhere.example/hook"
           {| opt_headers := ∅; opt_params := None; opt_data := None;
              opt_jsonBody := None |} (fresh default_client) "key").
  - reflexivity.
  - reflexivity.
  - reflexivity.
  - discriminate.
  - reflexivity.
Defined.

Lemma api_key_on_every_endpoint_witness :
  exists n evs,
    snd (transactionStatus answers_200 no_json form_encode 1700000000000 "ORD1"
           (fresh default_client)) = push (fresh default_client) n evs
    /\ (exists url init, In (Fetch url init) evs)
    /\ forall url init, In (Fetch url init) evs ->
         headers init !! "Authorization" = Some ("Bearer " +:+ "key").
Proof.
  destruct (api_key_on_every_endpoint answers_200 no_json stringify_stub
              form_encode 1700000000000 (fresh default_client) "key")
    as [Hstatus _].
  - reflexivity.
  - discriminate.
  - exact (Hstatus "ORD1").
Defined.

(** * Further properties of the constructor *)

(** [s.endsWith('/')] *)
Fixpoint ends_with_slash (s : string) : bool :=
  match s with
  | EmptyString => false
  | String c EmptyString => Ascii.eqb c "/"
  | String _ rest => ends_with_slash rest
  end.

Lemma strip_trailing_slash_app r : strip_trailing_slash (r +:+ "/") = r.
Proof.
  induction r as [|c r IH]; [reflexivity|].
  change (String c r +:+ "/") with (String c (r +:+ "/")).
  destruct (r +:+ "/") as [|d rest] eqn:E.
  - destruct r; discriminate E.
  - change (strip_trailing_slash (String c (String d rest)))
      with (String c (strip_trailing_slash (String d rest))).
    by rewrite IH.
Qed.

Lemma strip_trailing_slash_id r :
  ends_with_slash r = false -> strip_trailing_slash r = r.
Proof.
  induction r as [|c r IH]; [reflexivity|].
  cbn. destruct r as [|d r].
  - by intros ->.
  - intros H. by rewrite (IH H).
Qed.

(** X15. The constructor drops exactly one trailing slash of [root]: a
    root written with one slash at its end is stored without it (so a root
    ending in two slashes keeps one), and a root that does not end in a
    slash is stored as it is. *)
Theorem constructor_normalises_root o c r :
  constructor o = Constructed c ->
  (o_root o = Some (r +:+ "/") -> root c = r)
  /\ (o_root o = Some r -> ends_with_slash r = false -> root c = r).
Proof.
  unfold constructor. destruct (ENV_PREFIXES_get _); try discriminate.
  intros [= <-]. cbn. split.
  - intros ->. apply strip_trailing_slash_app.
  - intros -> Hr. by apply strip_trailing_slash_id.
Qed.

Definition uat_options (r : string) : Options :=
  {| o_env := None; o_apiKey := Some "key"; o_clientId := None;
     o_clientSecret := None; o_root := Some r; o_timeout := None;
     o_maxRetries := None; o_backoffFactor := None |}.

Lemma constructor_normalises_root_witness :
  exists c,
    constructor (uat_options "https://pay.example/") = Constructed c
    /\ root c = "https://pay.example".
Proof.
  eexists. split; [reflexivity|].
  destruct (constructor_normalises_root (uat_options "https://pay.example/") _
              "https://pay.example" eq_refl) as [Hslash _].
  apply Hslash. reflexivity.
Defined.

(** X16. The constructor throws "env must be 'uat' or 'live'" exactly for
    an [env] that names no property of the prefix table.  The table is an
    object literal, so besides 'uat' and 'live' the names it inherits from
    [Object.prototype] ('constructor', 'toString', ...) pass the test; an
    omitted [env] is 'uat'. *)
Theorem constructor_refuses_unknown_env o :
  (constructor o = Refused (Error "env must be 'uat' or 'live'")
   <-> exists s, o_env o = Some s /\ s <> "uat" /\ s <> "live"
                 /\ ~ In s Object_prototype_names)
  /\ (forall e, constructor o = Refused e
                -> e = Error "env must be 'uat' or 'live'")
  /\ (o_env o = None \/ o_env o = Some "uat" ->
      exists c, constructor o = Constructed c /\ env c = uat
                /\ token c = None /\ apiKey c = o_apiKey o)
  /\ (o_env o = Some "live" ->
      exists c, constructor o = Constructed c /\ env c = live
                /\ token c = None /\ apiKey c = o_apiKey o).
Proof.
  assert (Hget : forall s,
             ENV_PREFIXES_get s = NoEntry
             <-> s <> "uat" /\ s <> "live" /\ ~ In s Object_prototype_names).
  { intros s. unfold ENV_PREFIXES_get.
    destruct (String.eqb_spec s "uat") as [->|H1].
    { split; [discriminate|]. intros [H _]. by destruct H. }
    destruct (String.eqb_spec s "live") as [->|H2].
    { split; [discriminate|]. intros (_ & H & _). by destruct H. }
    destruct (existsb (String.eqb s) Object_prototype_names) eqn:E.
    - split; [discriminate|]. intros (_ & _ & H). exfalso. apply H.
      apply existsb_exists in E as (x & Hin & Hx).
      apply String.eqb_eq in Hx. by subst x.
    - split; [|reflexivity]. intros _. repeat split; try assumption.
      intros Hin. apply not_true_iff_false in E. apply E.
      apply existsb_exists. exists s. split; [exact Hin|apply String.eqb_refl]. }
  unfold constructor. split; [|split; [|split]].
  - split.
    + intros H. destruct (o_env o) as [s|] eqn:Es; cbn in H.
      * exists s. split; [reflexivity|]. apply Hget.
        destruct (ENV_PREFIXES_get s); try discriminate H. reflexivity.
      * discriminate H.
    + intros (s & -> & Hs). cbn. apply Hget in Hs. by rewrite Hs.
  - intros e H. destruct (ENV_PREFIXES_get _); try discriminate H.
    by injection H as <-.
  - intros [-> | ->]; cbn; eexists; repeat split.
  - intros ->. cbn. eexists. repeat split.
Qed.

Lemma constructor_refuses_unknown_env_witness :
  constructor
    {| o_env := Some "prod"; o_apiKey := None; o_clientId := None;
       o_clientSecret := None; o_root := None; o_timeout := None;
       o_maxRetries := None; o_backoffFactor := None |}
  = Refused (Error "env must be 'uat' or 'live'").
Proof.
  apply (constructor_refuses_unknown_env
           {| o_env := Some "prod"; o_apiKey := None; o_clientId := None;
              o_clientSecret := None; o_root := None; o_timeout := None;
              o_maxRetries := None; o_backoffFactor := None |}).
  exists "prod". split; [reflexivity|]. split; [discriminate|].
  split; [discriminate|].
  intros Hin. cbn in Hin.
  repeat (destruct Hin as [Hin|Hin]; [discriminate Hin|]). destruct Hin.
Defined.

(** An inherited property name passes the constructor's test. *)
Example constructor_accepts_inherited_name :
  constructor
    {| o_env := Some "toString"; o_apiKey := None; o_clientId := None;
       o_clientSecret := None; o_root := None; o_timeout := None;
       o_maxRetries := None; o_backoffFactor := None |}
  = ConstructedOutside "toString".
Proof. reflexivity. Qed.

(** * Further properties of the webhook verifier *)

Definition hex_digit_upper (n : N) : ascii :=
  if (n <? 10)%N then ascii_of_N (48 + n) else ascii_of_N (55 + n).

(** The hex text of a buffer written with capital letters. *)
Fixpoint hex_encode_upper (b : Buffer) : string :=
  match b with
  | c :: rest =>
      String (hex_digit_upper (N_of_ascii c / 16))
        (String (hex_digit_upper (N_of_ascii c mod 16)) (hex_encode_upper rest))
  | [] => EmptyString
  end.

Lemma unhex_high_upper c :
  unhex (hex_digit_upper (N_of_ascii c / 16)) = Some (N_of_ascii c / 16)%N.
Proof. destruct c as [[] [] [] [] [] [] [] []]; reflexivity. Qed.

Lemma unhex_low_upper c :
  unhex (hex_digit_upper (N_of_ascii c mod 16)) = Some (N_of_ascii c mod 16)%N.
Proof. destruct c as [[] [] [] [] [] [] [] []]; reflexivity. Qed.

Lemma Buffer_from_hex_encode_upper b : Buffer_from_hex (hex_encode_upper b) = b.
Proof.
  induction b as [|c b IH]; [reflexivity|].
  cbn [hex_encode_upper Buffer_from_hex].
  by rewrite unhex_high_upper, unhex_low_upper, nibbles_byte, IH.
Qed.

Lemma hex_encode_upper_not_prefixed b :
  String.prefix "sha256=" (hex_encode_upper b) = false.
Proof.
  destruct b as [|c b]; [reflexivity|].
  cbn [hex_encode_upper].
  destruct c as [[] [] [] [] [] [] [] []]; reflexivity.
Qed.

Lemma hmac_nonempty key msg : Sha256.hmac key msg <> [].
Proof.
  intros H. pose proof (length_hmac key msg) as Hl. rewrite H in Hl.
  discriminate Hl.
Qed.

(** X17. The signature is read without regard to letter case: the digest
    written in capital hex digits is accepted as well, bare or after the
    [sha256=] prefix. *)
Theorem webhook_accepts_uppercase_signature (payload : Buffer) (secret : string) :
  verifyWebhook payload
    (Some (hex_encode_upper (Sha256.hmac (Buffer_from_string secret) payload)))
    secret = Ok true
  /\ verifyWebhook payload
       (Some ("sha256="
              +:+ hex_encode_upper (Sha256.hmac (Buffer_from_string secret) payload)))
       secret = Ok true.
Proof.
  set (mac := Sha256.hmac (Buffer_from_string secret) payload).
  split; apply verifyWebhook_true.
  - split.
    + pose proof (hmac_nonempty (Buffer_from_string secret) payload) as Hne.
      fold mac in Hne. destruct mac; [contradiction|discriminate].
    + unfold signature_hex. rewrite hex_encode_upper_not_prefixed.
      apply Buffer_from_hex_encode_upper.
  - split; [discriminate|].
    by rewrite signature_hex_prefixed, Buffer_from_hex_first_piece,
         Buffer_from_hex_encode_upper.
Qed.

Lemma append_String a s t : String a s +:+ t = String a (s +:+ t).
Proof. reflexivity. Qed.

Lemma Buffer_from_hex_encode_app b t :
  Buffer_from_hex (hex_encode b +:+ t) = (b ++ Buffer_from_hex t)%list.
Proof.
  induction b as [|c b IH]; [reflexivity|].
  cbn [hex_encode]. rewrite !append_String. cbn [Buffer_from_hex].
  by rewrite unhex_high, unhex_low, nibbles_byte, IH.
Qed.

Lemma hex_encode_app_not_prefixed b t :
  b <> [] -> String.prefix "sha256=" (hex_encode b +:+ t) = false.
Proof.
  destruct b as [|c b]; [contradiction|]. intros _.
  cbn [hex_encode]. rewrite !append_String.
  destruct c as [[] [] [] [] [] [] [] []]; reflexivity.
Qed.

(** X18. Text after the digest is not examined.  A bare signature made of
    the hex digest followed by any text that does not begin with two hex
    digits is accepted, and after the [sha256=] prefix so is the digest
    followed by [=] and any text at all. *)
Theorem webhook_ignores_text_after_digest (payload : Buffer) (secret tail : string) :
  (Buffer_from_hex tail = [] ->
   verifyWebhook payload
     (Some (hex_encode (Sha256.hmac (Buffer_from_string secret) payload) +:+ tail))
     secret = Ok true)
  /\ verifyWebhook payload
       (Some ("sha256="
              +:+ (hex_encode (Sha256.hmac (Buffer_from_string secret) payload)
                   +:+ ("=" +:+ tail))))
       secret = Ok true.
Proof.
  pose proof (hmac_nonempty (Buffer_from_string secret) payload) as Hne.
  set (mac := Sha256.hmac (Buffer_from_string secret) payload) in *.
  split.
  - intros Ht. apply verifyWebhook_true. split.
    + destruct mac; [contradiction|discriminate].
    + unfold signature_hex. rewrite hex_encode_app_not_prefixed by exact Hne.
      rewrite Buffer_from_hex_encode_app, Ht. apply app_nil_r.
  - apply verifyWebhook_true. split; [discriminate|].
    rewrite signature_hex_prefixed, Buffer_from_hex_first_piece.
    rewrite Buffer_from_hex_encode_app.
    assert (Buffer_from_hex ("=" +:+ tail) = []) as -> by by destruct tail.
    apply app_nil_r.
Qed.

Lemma webhook_ignores_text_after_digest_witness :
  verifyWebhook fox
    (Some (hex_encode (Sha256.hmac (Buffer_from_string "key") fox) +:+ " (v1)"))
    "key" = Ok true.
Proof.
  destruct (webhook_ignores_text_after_digest fox "key" " (v1)") as [Hbare _].
  exact (Hbare eq_refl).
Defined.

Lemma Buffer_from_hex_length s :
  (2 * length (Buffer_from_hex s) <= String.length s)%nat.
Proof.
  induction s as [|a|a b s IH] using string_ind2; cbn [Buffer_from_hex].
  - cbn. lia.
  - cbn. lia.
  - destruct (unhex a); [|cbn; lia]. destruct (unhex b); cbn; lia.
Qed.

(** X19. A signature whose hex part has fewer than 64 characters is
    refused, whatever the payload and the secret. *)
Theorem webhook_refuses_short_signature (payload : Buffer) (h secret : string) :
  (String.length (signature_hex h) < 64)%nat ->
  verifyWebhook payload (Some h) secret = Ok false.
Proof.
  intros Hlen. apply verifyWebhook_false. intros H.
  pose proof (Buffer_from_hex_length (signature_hex h)) as Hb.
  rewrite H, length_hmac in Hb. lia.
Qed.

Lemma webhook_refuses_short_signature_witness :
  verifyWebhook fox (Some "sha256=f7bc83f430538424") "key" = Ok false.
Proof.
  apply (webhook_refuses_short_signature fox "sha256=f7bc83f430538424" "key").
  vm_compute. lia.
Defined.

(** * The timers of answered exchanges *)

Lemma try_block_clears fetch JSON_parse url options attempt w :
  exists evs,
    snd (try_block fetch JSON_parse url options attempt w) = push w 1 evs
    /\ forall res, fetch (S (nfetch w)) url options = Resolves res ->
         In (ClearTimeout (S (nfetch w))) evs.
Proof.
  destruct (fetch (S (nfetch w)) url options) as [res|e] eqn:Hf.
  - destruct (timer_cleared_when_answered fetch JSON_parse url options attempt w
                res Hf) as (r & w' & rest & Hrun & Hlog).
    destruct (try_block_world fetch JSON_parse url options attempt w)
      as (evs & Hw & _).
    exists evs. split; [exact Hw|]. intros _ _.
    rewrite Hrun in Hw. cbn in Hw. rewrite Hw in Hlog. cbn in Hlog.
    apply app_inv_head in Hlog. rewrite Hlog.
    right. right. left. reflexivity.
  - destruct (try_block_world fetch JSON_parse url options attempt w)
      as (evs & Hw & _).
    exists evs. split; [exact Hw|]. intros res [=].
Qed.

(** X20. Every exchange the transport answers has its abort timer cleared:
    in the events of one call, for each exchange of the call that ended in
    a response, whatever its status, [clearTimeout] was called with the
    timer of that exchange. *)
Theorem timer_cleared_after_every_answer fetch JSON_parse url options attempt w :
  exists k evs,
    snd (_fetchWithRetry fetch JSON_parse url options attempt w) = push w k evs
    /\ forall id res,
         (nfetch w < id <= k + nfetch w)%nat ->
         fetch id url options = Resolves res ->
         In (ClearTimeout id) evs.
Proof.
  funelim (_fetchWithRetry fetch JSON_parse url options attempt w);
    match goal with
    | E : try_block _ _ _ _ ?a ?w = (_, ?w1) |- _ =>
        destruct (try_block_clears fetch JSON_parse url options a w)
          as (evs & Hw & Hclr);
        rewrite E in Hw; cbn in Hw
    end.
  - exists 1%nat, evs. split; [exact Hw|].
    intros id res Hid Hres. replace id with (S (nfetch w)) in * by lia. eauto.
  - destruct H as (k & evs' & Hw' & Hclr'). subst w1.
    exists (k + 1)%nat, (evs ++ evs')%list. rewrite Hw', push_push.
    split; [reflexivity|]. intros id res Hid Hres. apply in_or_app.
    destruct (decide (id = S (nfetch w))) as [->|Hne]; [left; eauto|].
    right. apply (Hclr' id res); [cbn; lia|exact Hres].
  - destruct H as (k & evs' & Hw' & Hclr'). subst w1.
    exists (k + 1)%nat,
      (evs ++ [Sleep (backoff_ms (this w) (attempt + 1))] ++ evs')%list.
    rewrite Hw'. unfold push; cbn. split.
    + f_equal; [lia|]. by rewrite <- !app_assoc.
    + intros id res Hid Hres. apply in_or_app.
      destruct (decide (id = S (nfetch w))) as [->|Hne]; [left; eauto|].
      right. right. apply (Hclr' id res); [cbn; lia|exact Hres].
  - exists 1%nat, evs. split; [exact Hw|].
    intros id res Hid Hres. replace id with (S (nfetch w)) in * by lia. eauto.
Qed.
